(** * Family Game Night: the room registry and trivia round of [server.js]

    A shallow embedding of the socket.io server in [src/server.js]: the
    process-wide [rooms] map, the handlers of the six inbound events, and the
    [nextQuestion] callback run by the two [setTimeout] timers.

    Conventions of the embedding.
    - A JavaScript [Map] keeps its entries in insertion order, and setting an
      existing key keeps the entry's place; it is an association list here
      ([JsMap]).
    - Socket ids, player ids, room codes and answers are strings.
    - [Date.now()] and scores are integers ([Z]); the one fractional
      computation, the time bonus, is carried out in exact rationals ([Q]),
      and [double_points_floor] checks it against IEEE 754 doubles.
    - [Math.random()] is an input of the handler that draws it.
    - A handler returns the registry it leaves behind together with the list
      of what it sent or scheduled ([Effect]); reading a property of
      [undefined] is the outcome [TypeError].
    - [console.log] is not modelled. *)

From Stdlib Require Import ZArith List String Ascii Bool Lia.
From Stdlib Require Import QArith Qround Lqa Permutation Sorted DecimalString.
From Stdlib Require Import Floats Uint63.
Import ListNotations.

Local Open Scope string_scope.
Local Open Scope Z_scope.

(** ** JavaScript [Map] with string keys *)

Module JsMap.
Section Ops.
Context {V : Type}.

Definition t := list (string * V).

Fixpoint get (k : string) (m : t) : option V :=
  match m with
  | [] => None
  | (k', v) :: m' => if (k' =? k)%string then Some v else get k m'
  end.

Definition has (k : string) (m : t) : bool :=
  match get k m with Some _ => true | None => false end.

(** [m.set(k, v)]: an existing key keeps its position, a new key goes last. *)
Fixpoint set (k : string) (v : V) (m : t) : t :=
  match m with
  | [] => [(k, v)]
  | (k', v') :: m' =>
      if (k' =? k)%string then (k, v) :: m' else (k', v') :: set k v m'
  end.

Definition delete (k : string) (m : t) : t :=
  filter (fun e => negb (fst e =? k)%string) m.

Definition size (m : t) : Z := Z.of_nat (List.length m).

Definition values (m : t) : list V := map snd m.

Definition keys (m : t) : list string := map fst m.

Definition clear (m : t) : t := [].

(** Assignment to a field of the object stored under [k], in place. *)
Fixpoint modify (k : string) (f : V -> V) (m : t) : t :=
  match m with
  | [] => []
  | (k', v) :: m' =>
      if (k' =? k)%string then (k', f v) :: m' else (k', v) :: modify k f m'
  end.

(** [m.forEach(v => ...)] where the body assigns to fields of [v]. *)
Definition forEach (f : V -> V) (m : t) : t :=
  map (fun e => (fst e, f (snd e))) m.

(** A [Map] never holds a key twice. *)
Definition wf (m : t) : Prop := NoDup (keys m).

End Ops.
Arguments t : clear implicits.
End JsMap.

(** ** Exceptions *)

Inductive outcome (A : Type) : Type :=
| Done (a : A)
| TypeError.
Arguments Done {A} a.
Arguments TypeError {A}.

Definition bind {A B : Type} (c : outcome A) (k : A -> outcome B) : outcome B :=
  match c with
  | Done a => k a
  | TypeError => TypeError
  end.

Notation "x <- c ;; k" := (bind c (fun x => k))
  (at level 61, c at next level, right associativity).

(** [o.field] for a value that may be [undefined]. *)
Definition deref {A : Type} (o : option A) : outcome A :=
  match o with
  | Some a => Done a
  | None => TypeError
  end.

(** ** Data model *)

Record Question : Type := mkQuestion {
  q : string;
  a : string;
  choices : list string
}.

Record Player : Type := mkPlayer {
  id : string;
  name : string;
  avatar : string;
  socketId : string;
  score : Z
}.

Record AnswerRecord : Type := mkAnswer {
  answer : string;
  correct : bool;
  points : Z
}.

Inductive GameState : Type := LOBBY | PLAYING | ROUND_END.

Record Room : Type := mkRoom {
  code : string;
  host : string;
  players : JsMap.t Player;
  gameState : GameState;
  currentGame : option string;
  currentQuestion : option Question;
  questionNumber : Z;
  buzzedPlayer : option string;
  answers : JsMap.t AnswerRecord;
  questionStartTime : option Z
}.

Definition Rooms : Type := JsMap.t Room.

(** Field assignments. *)

Definition set_score (v : Z) (p : Player) : Player :=
  mkPlayer (id p) (name p) (avatar p) (socketId p) v.

Definition set_players (v : JsMap.t Player) (r : Room) : Room :=
  mkRoom (code r) (host r) v (gameState r) (currentGame r) (currentQuestion r)
    (questionNumber r) (buzzedPlayer r) (answers r) (questionStartTime r).

Definition set_gameState (v : GameState) (r : Room) : Room :=
  mkRoom (code r) (host r) (players r) v (currentGame r) (currentQuestion r)
    (questionNumber r) (buzzedPlayer r) (answers r) (questionStartTime r).

Definition set_currentGame (v : option string) (r : Room) : Room :=
  mkRoom (code r) (host r) (players r) (gameState r) v (currentQuestion r)
    (questionNumber r) (buzzedPlayer r) (answers r) (questionStartTime r).

Definition set_currentQuestion (v : option Question) (r : Room) : Room :=
  mkRoom (code r) (host r) (players r) (gameState r) (currentGame r) v
    (questionNumber r) (buzzedPlayer r) (answers r) (questionStartTime r).

Definition set_questionNumber (v : Z) (r : Room) : Room :=
  mkRoom (code r) (host r) (players r) (gameState r) (currentGame r)
    (currentQuestion r) v (buzzedPlayer r) (answers r) (questionStartTime r).

Definition set_buzzedPlayer (v : option string) (r : Room) : Room :=
  mkRoom (code r) (host r) (players r) (gameState r) (currentGame r)
    (currentQuestion r) (questionNumber r) v (answers r) (questionStartTime r).

Definition set_answers (v : JsMap.t AnswerRecord) (r : Room) : Room :=
  mkRoom (code r) (host r) (players r) (gameState r) (currentGame r)
    (currentQuestion r) (questionNumber r) (buzzedPlayer r) v (questionStartTime r).

Definition set_questionStartTime (v : option Z) (r : Room) : Room :=
  mkRoom (code r) (host r) (players r) (gameState r) (currentGame r)
    (currentQuestion r) (questionNumber r) (buzzedPlayer r) (answers r) v.

(** ** What a handler sends and schedules *)

Inductive Message : Type :=
| error (message : string)
| player_joined (player : Player)
| player_list (roster : list Player)
| joined_room (roomCode : string) (roster : list Player)
| game_started (game : string)
| round_end (leaderboard : list Player)
| new_question (number : Z) (question : option Question)
| new_question_redacted (number : Z) (prompt : string) (options : list string)
| player_buzzed (playerId playerName : string)
| answer_result (isCorrect : bool) (pts : Z) (correctAnswer : string) (totalScore : Z)
| answer_submitted (playerId playerName : string) (isCorrect : bool) (pts : Z)
    (given : string)
| room_closed
| player_left (playerId : string).

Inductive Effect : Type :=
| SocketEmit (sock : string) (m : Message)        (* socket.emit(...)        *)
| EmitTo (target : string) (m : Message)          (* io.to(target).emit(...) *)
| SocketJoin (sock : string) (channel : string)   (* socket.join(channel)    *)
| Callback (roomCode : string)                    (* callback({success: true, roomCode}) *)
| SetTimeout (roomCode : string) (delay : Z).     (* setTimeout(() => nextQuestion(roomCode), delay) *)

(** ** JavaScript primitives used by the handlers *)

Definition upper_ascii (c : ascii) : ascii :=
  let n := nat_of_ascii c in
  if ((97 <=? n) && (n <=? 122))%nat then ascii_of_nat (n - 32) else c.

(** [s.toUpperCase()] on ASCII text: the letters a-z go to A-Z and every
    other character stays.  A code sent with other than ASCII characters,
    which [String.prototype.toUpperCase] may map to ASCII letters, is outside
    the embedding; statements about every code sent say so ([ascii_text]). *)
Fixpoint toUpperCase (s : string) : string :=
  match s with
  | EmptyString => EmptyString
  | String c s' => String (upper_ascii c) (toUpperCase s')
  end.

(** Truthiness of a value that is a string or [null]: the empty string is
    falsy, like [null]. *)
Definition truthy (o : option string) : bool :=
  match o with
  | Some s => negb (s =? "")%string
  | None => false
  end.

(** [x === y] for [x] a string or [null] and [y] a string. *)
Definition strict_eq (x : option string) (y : string) : bool :=
  match x with
  | Some s => (s =? y)%string
  | None => false
  end.

(** [null] converts to 0 in a subtraction. *)
Definition toNumber (o : option Z) : Z :=
  match o with
  | Some n => n
  | None => 0
  end.

(** A stable sort, as [Array.prototype.sort] is: [x] goes before [y] when
    [cmp x y <= 0], so equal elements keep their order. *)
Section Sort.
Context {A : Type} (cmp : A -> A -> Z).

Fixpoint insert (x : A) (l : list A) : list A :=
  match l with
  | [] => [x]
  | y :: l' => if cmp x y <=? 0 then x :: y :: l' else y :: insert x l'
  end.

Fixpoint sort (l : list A) : list A :=
  match l with
  | [] => []
  | x :: l' => insert x (sort l')
  end.
End Sort.

(** The decimal text of an integer, as a template literal prints it. *)
Definition decimal (n : Z) : string := NilZero.string_of_int (Z.to_int n).

(** ** The trivia catalogue *)

Definition triviaQuestions : list Question :=
  [ mkQuestion "What year did the first iPhone launch?" "2007"
      ["2005"; "2007"; "2009"; "2010"];
    mkQuestion "Which planet is closest to the Sun?" "Mercury"
      ["Venus"; "Mercury"; "Mars"; "Earth"];
    mkQuestion "Who painted the Mona Lisa?" "Leonardo da Vinci"
      ["Michelangelo"; "Leonardo da Vinci"; "Raphael"; "Donatello"];
    mkQuestion "What is the capital of Australia?" "Canberra"
      ["Sydney"; "Melbourne"; "Canberra"; "Brisbane"];
    mkQuestion "How many hearts does an octopus have?" "3"
      ["1"; "2"; "3"; "4"];
    mkQuestion "What is the smallest country in the world?" "Vatican City"
      ["Monaco"; "Vatican City"; "San Marino"; "Liechtenstein"];
    mkQuestion "Which element has the chemical symbol 'Au'?" "Gold"
      ["Silver"; "Gold"; "Copper"; "Aluminum"];
    mkQuestion "How many strings does a standard guitar have?" "6"
      ["4"; "5"; "6"; "7"];
    mkQuestion "What is the tallest mountain in the world?" "Mount Everest"
      ["K2"; "Mount Everest"; "Kilimanjaro"; "Denali"];
    mkQuestion "What year did World War II end?" "1945"
      ["1943"; "1944"; "1945"; "1946"] ].

(** [getRandomQuestions(count)]: [shuffled] is the copy of the catalogue after
    the sort with the random comparator. *)
Definition getRandomQuestions (shuffled : list Question) (count : nat) : list Question :=
  firstn count shuffled.

(** ** Room codes and room creation *)

Definition adjectives : list string :=
  ["COOL"; "FAST"; "MEGA"; "EPIC"; "WILD"; "FIRE"; "STAR"; "BOLT"; "DASH"; "ZOOM"].

(** [generateRoomCode()]: [r1] and [r2] stand for the two values of
    [Math.random()].  The embedding multiplies and adds in exact rationals
    where the program rounds to doubles, so a random value next to the edge of
    a cell can draw the neighbouring adjective or number in the program
    ([double_draws]).  What is proved below depends on the code drawn, not on
    the random value that draws it: the codes the embedding draws are exactly
    the texts of [room_code] ([generateRoomCode_range],
    [generateRoomCode_onto]). *)
Definition generateRoomCode (r1 r2 : Q) : string :=
  let adj := nth (Z.to_nat (Qfloor (r1 * inject_Z (Z.of_nat (List.length adjectives)))))
               adjectives "undefined" in
  let num := Qfloor (1000 + r2 * 9000) in
  adj ++ "-" ++ decimal num.

Definition newRoom (roomCode hostSocketId : string) : Room :=
  {| code := roomCode;
     host := hostSocketId;
     players := [];
     gameState := LOBBY;
     currentGame := None;
     currentQuestion := None;
     questionNumber := 0;
     buzzedPlayer := None;
     answers := [];
     questionStartTime := None |}.

Definition createRoom (r1 r2 : Q) (hostSocketId : string) (rooms : Rooms) : Rooms * Room :=
  let roomCode := generateRoomCode r1 r2 in
  let room := newRoom roomCode hostSocketId in
  (JsMap.set roomCode room rooms, room).

(** ** The handlers *)

(** ['create_room']. *)
Definition create_room (sock : string) (r1 r2 : Q) (callback : bool) (rooms : Rooms)
  : outcome (Rooms * list Effect) :=
  let (rooms', room) := createRoom r1 r2 sock rooms in
  Done (rooms',
        SocketJoin sock (code room)
        :: (if callback then [Callback (code room)] else [])).

(** The default avatar, by the bytes of its literal in [server.js]. *)
Definition default_avatar : string :=
  string_of_list_ascii
    (map ascii_of_nat [195; 176; 197; 184; 197; 189; 194; 174]%nat).

(** [avatar || default]: the avatar sent by the client, or the default one
    when it is missing or empty. *)
Definition avatar_or_default (sent : option string) : string :=
  if truthy sent then match sent with Some s => s | None => default_avatar end
  else default_avatar.

(** ['join_room']. *)
Definition join_room (sock roomCode playerId playerName : string)
    (sentAvatar : option string) (rooms : Rooms) : outcome (Rooms * list Effect) :=
  match JsMap.get (toUpperCase roomCode) rooms with
  | None => Done (rooms, [SocketEmit sock (error "Room not found")])
  | Some room =>
      let player :=
        {| id := playerId;
           name := playerName;
           avatar := avatar_or_default sentAvatar;
           socketId := sock;
           score := 0 |} in
      let room' := set_players (JsMap.set playerId player (players room)) room in
      Done (JsMap.modify (toUpperCase roomCode) (fun _ => room') rooms,
            [ SocketJoin sock roomCode;
              EmitTo (host room') (player_joined player);
              EmitTo roomCode (player_list (JsMap.values (players room')));
              SocketEmit sock (joined_room roomCode (JsMap.values (players room'))) ])
  end.

(** ['start_game']. *)
Definition start_game (sock roomCode game : string) (rooms : Rooms)
  : outcome (Rooms * list Effect) :=
  match JsMap.get roomCode rooms with
  | Some room =>
      if negb (host room =? sock)%string
      then Done (rooms, [SocketEmit sock (error "Not authorized")])
      else
        let room1 := set_currentGame (Some game) room in
        let room2 := set_gameState PLAYING room1 in
        let room3 := set_questionNumber 0 room2 in
        let room4 := set_players (JsMap.forEach (set_score 0) (players room3)) room3 in
        Done (JsMap.modify roomCode (fun _ => room4) rooms,
              [ EmitTo roomCode (game_started game);
                SetTimeout roomCode 2000 ])
  | None => Done (rooms, [SocketEmit sock (error "Not authorized")])
  end.

(** The [new_question] sent to each player: it reads [question.q] and
    [question.choices] once per player. *)
Fixpoint send_to_players (number : Z) (question : option Question)
    (ps : list Player) : outcome (list Effect) :=
  match ps with
  | [] => Done []
  | player :: ps' =>
      qu <- deref question ;;
      rest <- send_to_players number question ps' ;;
      Done (EmitTo (socketId player) (new_question_redacted number (q qu) (choices qu))
            :: rest)
  end.

(** [nextQuestion(roomCode)], the callback of both timers; [now] is
    [Date.now()]. *)
Definition nextQuestion (roomCode : string) (shuffled : list Question) (now : Z)
    (rooms : Rooms) : outcome (Rooms * list Effect) :=
  match JsMap.get roomCode rooms with
  | None => Done (rooms, [])
  | Some room =>
      let room1 := set_questionNumber (questionNumber room + 1) room in
      if 5 <? questionNumber room1 then
        let room2 := set_gameState ROUND_END room1 in
        let leaderboard :=
          sort (fun x y => score y - score x) (JsMap.values (players room2)) in
        Done (JsMap.modify roomCode (fun _ => room2) rooms,
              [EmitTo roomCode (round_end leaderboard)])
      else
        let question := nth_error (getRandomQuestions shuffled 1) 0 in
        let room2 := set_currentQuestion question room1 in
        let room3 := set_buzzedPlayer None room2 in
        let room4 := set_answers (JsMap.clear (answers room3)) room3 in
        let room5 := set_questionStartTime (Some now) room4 in
        sent <- send_to_players (questionNumber room5) question
                  (JsMap.values (players room5)) ;;
        Done (JsMap.modify roomCode (fun _ => room5) rooms,
              EmitTo (host room5) (new_question (questionNumber room5) question)
              :: sent)
  end.

(** The loop of ['buzz_in'] and ['submit_answer'] that looks for the first
    room holding the player. *)
Fixpoint find_room (playerId : string) (rooms : Rooms) : option (string * Room) :=
  match rooms with
  | [] => None
  | (roomCode, r) :: rest =>
      if JsMap.has playerId (players r) then Some (roomCode, r)
      else find_room playerId rest
  end.

(** Assignments to the room object that loop found: the entry it stopped at
    holds the new contents. *)
Fixpoint store_found (playerId : string) (room' : Room) (rooms : Rooms) : Rooms :=
  match rooms with
  | [] => []
  | (roomCode, r) :: rest =>
      if JsMap.has playerId (players r) then (roomCode, room') :: rest
      else (roomCode, r) :: store_found playerId room' rest
  end.

(** ['buzz_in']. *)
Definition buzz_in (sock playerId : string) (rooms : Rooms)
  : outcome (Rooms * list Effect) :=
  match find_room playerId rooms with
  | None => Done (rooms, [])
  | Some (roomCode, room) =>
      if truthy (buzzedPlayer room) then Done (rooms, [])
      else
        let room' := set_buzzedPlayer (Some playerId) room in
        player <- deref (JsMap.get playerId (players room')) ;;
        Done (store_found playerId room' rooms,
              [ EmitTo roomCode (player_buzzed playerId (name player));
                EmitTo (host room') (player_buzzed playerId (name player)) ])
  end.

(** The points of an answer given [timeElapsed] milliseconds after the
    question was sent. *)
Definition timeBonus (timeElapsed : Z) : Q :=
  (inject_Z (Z.max 0 (15000 - timeElapsed)) / 1000)%Q.

Definition score_points (isCorrect : bool) (timeElapsed : Z) : Z :=
  if isCorrect then Qfloor (100 + timeBonus timeElapsed * 10)%Q else 0.

(** ['submit_answer']; [now] is [Date.now()]. *)
Definition submit_answer (sock playerId given : string) (now : Z) (rooms : Rooms)
  : outcome (Rooms * list Effect) :=
  match find_room playerId rooms with
  | None => Done (rooms, [])
  | Some (roomCode, room) =>
      match currentQuestion room with
      | None => Done (rooms, [])
      | Some question =>
          player <- deref (JsMap.get playerId (players room)) ;;
          let isCorrect := (given =? a question)%string in
          let timeElapsed := now - toNumber (questionStartTime room) in
          let pts := score_points isCorrect timeElapsed in
          let player' :=
            if isCorrect then set_score (score player + pts) player else player in
          let room1 :=
            set_players (JsMap.modify playerId (fun _ => player') (players room)) room in
          let room2 :=
            set_answers (JsMap.set playerId (mkAnswer given isCorrect pts) (answers room1))
              room1 in
          Done (store_found playerId room2 rooms,
                ([ SocketEmit sock (answer_result isCorrect pts (a question) (score player'));
                   EmitTo (host room2)
                     (answer_submitted playerId (name player') isCorrect pts given) ]
                 ++ (if strict_eq (buzzedPlayer room2) playerId
                        || (JsMap.size (answers room2) =? JsMap.size (players room2))
                     then [SetTimeout roomCode 3000] else []))%list)
      end
  end.

(** The inner loop of ['disconnect']: the first player of the room bound to
    the socket. *)
Fixpoint find_player (sock : string) (ps : JsMap.t Player) : option (string * Player) :=
  match ps with
  | [] => None
  | (playerId, player) :: rest =>
      if (socketId player =? sock)%string then Some (playerId, player)
      else find_player sock rest
  end.

(** ['disconnect']: every room is visited, in the registry's order. *)
Fixpoint disconnect (sock : string) (rooms : Rooms) : Rooms * list Effect :=
  match rooms with
  | [] => ([], [])
  | (roomCode, room) :: rest =>
      let (rest', later) := disconnect sock rest in
      if (host room =? sock)%string then
        (rest', EmitTo roomCode room_closed :: later)
      else
        match find_player sock (players room) with
        | Some (playerId, _) =>
            ((roomCode, set_players (JsMap.delete playerId (players room)) room) :: rest',
             EmitTo (host room) (player_left playerId) :: later)
        | None => ((roomCode, room) :: rest', later)
        end
  end.

(** ** The server as a transition system *)

Inductive Event : Type :=
| ev_create_room (r1 r2 : Q) (callback : bool)
| ev_join_room (roomCode playerId playerName : string) (sentAvatar : option string)
| ev_start_game (roomCode game : string)
| ev_buzz_in (playerId : string)
| ev_submit_answer (playerId given : string) (now : Z)
| ev_disconnect.

Inductive Input : Type :=
| FromSocket (sock : string) (e : Event)
| TimerFires (roomCode : string) (shuffled : list Question) (now : Z).

Definition handle (i : Input) (rooms : Rooms) : outcome (Rooms * list Effect) :=
  match i with
  | FromSocket sock (ev_create_room r1 r2 callback) => create_room sock r1 r2 callback rooms
  | FromSocket sock (ev_join_room roomCode playerId playerName sentAvatar) =>
      join_room sock roomCode playerId playerName sentAvatar rooms
  | FromSocket sock (ev_start_game roomCode game) => start_game sock roomCode game rooms
  | FromSocket sock (ev_buzz_in playerId) => buzz_in sock playerId rooms
  | FromSocket sock (ev_submit_answer playerId given now) =>
      submit_answer sock playerId given now rooms
  | FromSocket sock ev_disconnect => Done (disconnect sock rooms)
  | TimerFires roomCode shuffled now => nextQuestion roomCode shuffled now rooms
  end.

(** The registry together with the timers that are set and have not fired. *)
Record Server : Type := mkServer {
  registry : Rooms;
  pending : list string
}.

Definition initial : Server := mkServer [] [].

Fixpoint scheduled (effects : list Effect) : list string :=
  match effects with
  | [] => []
  | SetTimeout roomCode _ :: rest => roomCode :: scheduled rest
  | _ :: rest => scheduled rest
  end.

Fixpoint remove_one (roomCode : string) (l : list string) : list string :=
  match l with
  | [] => []
  | c :: l' => if (c =? roomCode)%string then l' else c :: remove_one roomCode l'
  end.

Definition is_random (r : Q) : Prop := (0 <= r)%Q /\ (r < 1)%Q.

(** What the environment can present to the server: [Math.random()] lies in
    [0, 1), the shuffle permutes the catalogue, and only a timer that was set
    fires. *)
Definition admissible (s : Server) (i : Input) : Prop :=
  match i with
  | FromSocket _ (ev_create_room r1 r2 _) => is_random r1 /\ is_random r2
  | FromSocket _ _ => True
  | TimerFires roomCode shuffled _ =>
      In roomCode (pending s) /\ Permutation shuffled triviaQuestions
  end.

Definition after (i : Input) (l : list string) : list string :=
  match i with
  | TimerFires roomCode _ _ => remove_one roomCode l
  | FromSocket _ _ => l
  end.

Inductive step (s : Server) (i : Input) : Server -> list Effect -> Prop :=
| step_intro rooms' effects :
    admissible s i ->
    handle i (registry s) = Done (rooms', effects) ->
    step s i (mkServer rooms' (after i (pending s) ++ scheduled effects)%list) effects.

Inductive reachable : Server -> Prop :=
| reachable_initial : reachable initial
| reachable_step s i s' effects :
    reachable s -> step s i s' effects -> reachable s'.

(** ** The HTTP endpoints

    [GET /health] and [GET /rooms] read the registry and change nothing. *)

Module Http.

Record Health : Type := mkHealth {
  status : string;
  rooms : Z;
  timestamp : string
}.

Record RoomInfo : Type := mkRoomInfo {
  code : string;
  players : Z;
  gameState : GameState;
  currentGame : option string
}.

End Http.

(** [GET /health]; [isoNow] is [new Date().toISOString()]. *)
Definition get_health (isoNow : string) (rooms : Rooms) : Http.Health :=
  {| Http.status := "ok";
     Http.rooms := JsMap.size rooms;
     Http.timestamp := isoNow |}.

(** [GET /rooms]: one record per entry of the registry, in its order. *)
Definition get_rooms (rooms : Rooms) : list Http.RoomInfo :=
  map (fun entry =>
         {| Http.code := fst entry;
            Http.players := JsMap.size (players (snd entry));
            Http.gameState := gameState (snd entry);
            Http.currentGame := currentGame (snd entry) |})
      rooms.

(** * Auxiliary definitions

    Predicates used in the statements below, an executable form of the
    transition system, and the concrete scenarios the statements are
    evaluated on. *)

(** The double that holds the integer [n], for the comparison of the time
    bonus of the embedding with its value in IEEE 754 doubles. *)
Definition to_double (n : Z) : float := PrimFloat.of_uint63 (Uint63.of_Z n).

(** [100 + (n / 1000) * 10] in doubles, for [n = max(0, 15000 - timeElapsed)]. *)
Definition double_points (n : Z) : float :=
  (to_double 100 + (to_double n / to_double 1000) * to_double 10)%float.

(** [Math.floor(x)] is [k]: [k <= x < k + 1]. *)
Definition floor_is (x : float) (k : Z) : bool :=
  PrimFloat.leb (to_double k) x && PrimFloat.ltb x (to_double (k + 1)).

Definition double_agrees (n : nat) : bool :=
  floor_is (double_points (Z.of_nat n)) (100 + Z.of_nat n / 100).

(** One input handled, with the timers kept up to date; [None] when the
    handler throws. *)
Definition exec (s : Server) (i : Input) : option Server :=
  match handle i (registry s) with
  | Done (rooms', effects) =>
      Some (mkServer rooms' (after i (pending s) ++ scheduled effects)%list)
  | TypeError => None
  end.

Fixpoint run (inputs : list Input) (s : Server) : option Server :=
  match inputs with
  | [] => Some s
  | i :: rest =>
      match exec s i with
      | Some s' => run rest s'
      | None => None
      end
  end.

(** Every input of the run is one the environment can present. *)
Fixpoint admissible_run (inputs : list Input) (s : Server) : Prop :=
  match inputs with
  | [] => True
  | i :: rest =>
      admissible s i /\
      match exec s i with
      | Some s' => admissible_run rest s'
      | None => False
      end
  end.

(** A game in progress: a host, two players, the first question sent at
    time 5000. *)
Definition game_inputs : list Input :=
  [ FromSocket "tv" (ev_create_room 0 0 true);
    FromSocket "s1" (ev_join_room "cool-1000" "ann" "Ann" None);
    FromSocket "s2" (ev_join_room "COOL-1000" "bob" "Bob" (Some "B"));
    FromSocket "tv" (ev_start_game "COOL-1000" "trivia");
    TimerFires "COOL-1000" triviaQuestions 5000 ].

Definition game_server : Server :=
  Eval vm_compute in
    match run game_inputs initial with Some s => s | None => initial end.

Definition game_rooms : Rooms := Eval vm_compute in registry game_server.

Definition game_room : Room :=
  Eval vm_compute in
    match JsMap.get "COOL-1000" game_rooms with
    | Some r => r
    | None => newRoom "" ""
    end.

Definition first_question : Question :=
  mkQuestion "What year did the first iPhone launch?" "2007"
    ["2005"; "2007"; "2009"; "2010"].

(** The comparator of the leaderboard, [(a, b) => b.score - a.score]. *)
Definition by_score (x y : Player) : Z := score y - score x.

(** [x] may stand before [y] in a list sorted by descending score. *)
Definition score_desc (x y : Player) : Prop := score y <= score x.

(** A whole round: after each of the five questions both players answer
    "2007", the answer of the question this shuffle always puts first, and
    the sixth timer ends the round. *)
Definition one_question (sent : Z) : list Input :=
  [ FromSocket "s1" (ev_submit_answer "ann" "2007" (sent + 2000));
    FromSocket "s2" (ev_submit_answer "bob" "2007" (sent + 1000));
    TimerFires "COOL-1000" triviaQuestions (sent + 5000) ].

Definition round_inputs : list Input :=
  (game_inputs ++ one_question 5000 ++ one_question 10000 ++ one_question 15000
     ++ one_question 20000 ++ one_question 25000)%list.

Definition last_question_server : Server :=
  Eval vm_compute in
    match run (removelast round_inputs) initial with Some s => s | None => initial end.

Definition round_end_server : Server :=
  Eval vm_compute in
    match run round_inputs initial with Some s => s | None => initial end.

Definition round_end_room : Room :=
  Eval vm_compute in
    match JsMap.get "COOL-1000" (registry round_end_server) with
    | Some r => r
    | None => newRoom "" ""
    end.

(** A room that has been sent a question, or whose round is over, holds a
    question. *)
Definition holds_question (room : Room) : Prop :=
  0 < questionNumber room \/ gameState room = ROUND_END ->
  currentQuestion room <> None.

(** The game of [game_inputs] with a first player whose id is the empty
    string. *)
Definition empty_id_inputs : list Input :=
  [ FromSocket "tv" (ev_create_room 0 0 true);
    FromSocket "s1" (ev_join_room "COOL-1000" "" "Ann" None);
    FromSocket "s2" (ev_join_room "COOL-1000" "bob" "Bob" None);
    FromSocket "tv" (ev_start_game "COOL-1000" "trivia");
    TimerFires "COOL-1000" triviaQuestions 5000 ].

Definition empty_id_server : Server :=
  Eval vm_compute in
    match run empty_id_inputs initial with Some s => s | None => initial end.

(** The lobby of [game_inputs], before the game starts. *)
Definition lobby_server : Server :=
  Eval vm_compute in
    match run (firstn 3 game_inputs) initial with Some s => s | None => initial end.

Definition lobby_rooms : Rooms := Eval vm_compute in registry lobby_server.


(** The room a socket leaves behind when it is not the host: its first player
    bound to the socket is taken out. *)
Definition without_first_player (sock : string) (room : Room) : Room :=
  match find_player sock (players room) with
  | Some (playerId, _) => set_players (JsMap.delete playerId (players room)) room
  | None => room
  end.

(** Two rooms of two hosts; the socket [s1] has joined both. *)
Definition two_rooms_inputs : list Input :=
  [ FromSocket "tv1" (ev_create_room 0 0 true);
    FromSocket "tv2" (ev_create_room (1 # 10) 0 true);
    FromSocket "s1" (ev_join_room "COOL-1000" "ann" "Ann" None);
    FromSocket "s1" (ev_join_room "FAST-1000" "ann" "Ann" None);
    FromSocket "s2" (ev_join_room "FAST-1000" "bob" "Bob" None) ].

Definition two_rooms_server : Server :=
  Eval vm_compute in
    match run two_rooms_inputs initial with Some s => s | None => initial end.

Definition second_room : Room :=
  Eval vm_compute in
    match JsMap.get "FAST-1000" (registry two_rooms_server) with
    | Some r => r
    | None => newRoom "" ""
    end.

(** The input is a ['start_game']. *)
Definition starts_game (i : Input) : Prop :=
  match i with
  | FromSocket _ (ev_start_game _ _) => True
  | _ => False
  end.

(** The input is a ['join_room'] for the room [c] under the player id [pid]. *)
Definition joins_as (c pid : string) (i : Input) : Prop :=
  match i with
  | FromSocket _ (ev_join_room roomCode playerId _ _) =>
      toUpperCase roomCode = c /\ playerId = pid
  | _ => False
  end.

(** The game of [game_inputs] after Bob's right answer, one second into the
    first question. *)
Definition scored_inputs : list Input :=
  (game_inputs ++ [FromSocket "s2" (ev_submit_answer "bob" "2007" 6000)])%list.

Definition scored_server : Server :=
  Eval vm_compute in
    match run scored_inputs initial with Some s => s | None => initial end.

Definition scored_room : Room :=
  Eval vm_compute in
    match JsMap.get "COOL-1000" (registry scored_server) with
    | Some r => r
    | None => newRoom "" ""
    end.

(** The shuffle handed to [nextQuestion] permutes the catalogue. *)
Definition fair_shuffle (i : Input) : Prop :=
  match i with
  | TimerFires _ shuffled _ => Permutation shuffled triviaQuestions
  | FromSocket _ _ => True
  end.

(** The room [submit_answer] leaves for the player [playerId], who answers
    [given] at time [now] to the question of the room [r]. *)
Definition answered (playerId given : string) (now : Z) (question : Question)
    (player : Player) (r : Room) : Room :=
  let isCorrect := (given =? a question)%string in
  let pts := score_points isCorrect (now - toNumber (questionStartTime r)) in
  let player' := if isCorrect then set_score (score player + pts) player else player in
  let room1 := set_players (JsMap.modify playerId (fun _ => player') (players r)) r in
  set_answers (JsMap.set playerId (mkAnswer given isCorrect pts) (answers room1)) room1.

(** The room [nextQuestion] leaves when it sends a question. *)
Definition asked (question : Question) (now : Z) (r : Room) : Room :=
  set_questionStartTime (Some now)
    (set_answers []
       (set_buzzedPlayer None
          (set_currentQuestion (Some question)
             (set_questionNumber (questionNumber r + 1) r)))).

(** The ways the input [i] changes the room stored under the code [c]. *)
Inductive room_update (i : Input) (c : string) : Room -> Room -> Prop :=
| update_join r sock roomCode playerId playerName sentAvatar :
    i = FromSocket sock (ev_join_room roomCode playerId playerName sentAvatar) ->
    toUpperCase roomCode = c ->
    room_update i c r
      (set_players
         (JsMap.set playerId
            (mkPlayer playerId playerName (avatar_or_default sentAvatar) sock 0)
            (players r)) r)
| update_start r game :
    i = FromSocket (host r) (ev_start_game c game) ->
    room_update i c r
      (set_players (JsMap.forEach (set_score 0) (players r))
         (set_questionNumber 0 (set_gameState PLAYING (set_currentGame (Some game) r))))
| update_buzz r sock playerId :
    i = FromSocket sock (ev_buzz_in playerId) ->
    JsMap.has playerId (players r) = true ->
    truthy (buzzedPlayer r) = false ->
    room_update i c r (set_buzzedPlayer (Some playerId) r)
| update_submit r sock playerId given now question player :
    i = FromSocket sock (ev_submit_answer playerId given now) ->
    currentQuestion r = Some question ->
    JsMap.get playerId (players r) = Some player ->
    room_update i c r (answered playerId given now question player r)
| update_leave r sock playerId player :
    i = FromSocket sock ev_disconnect ->
    host r <> sock ->
    find_player sock (players r) = Some (playerId, player) ->
    room_update i c r (set_players (JsMap.delete playerId (players r)) r)
| update_round_end r shuffled now :
    i = TimerFires c shuffled now ->
    5 < questionNumber r + 1 ->
    room_update i c r
      (set_gameState ROUND_END (set_questionNumber (questionNumber r + 1) r))
| update_question r shuffled now question :
    i = TimerFires c shuffled now ->
    questionNumber r + 1 <= 5 ->
    In question triviaQuestions ->
    room_update i c r (asked question now r).

(** A code [generateRoomCode] can return. *)
Definition room_code (c : string) : Prop :=
  exists adj n, In adj adjectives /\ 1000 <= n <= 9999 /\ c = adj ++ "-" ++ decimal n.

(** The rooms of the registry whose host is the socket. *)
Definition hosted_by (sock : string) (rooms : Rooms) : Rooms :=
  filter (fun entry => (host (snd entry) =? sock)%string) rooms.

(** What is checked of the number of a room code: it prints as four
    characters that [toUpperCase] leaves alone, and reads back as itself. *)
Definition prints_well (n : Z) : bool :=
  (toUpperCase (decimal n) =? decimal n)%string
  && (String.length (decimal n) =? 4)%nat
  && match NilZero.int_of_string (decimal n) with
     | Some d => Z.of_int d =? n
     | None => false
     end.

(** The players and the answers of a room are well-formed maps; a player is
    stored under its own id and its score is not negative; the points of a
    recorded answer are not negative, and zero when the answer is wrong. *)
Definition sound_players (r : Room) : Prop :=
  JsMap.wf (players r) /\ JsMap.wf (answers r) /\
  (forall pid p, In (pid, p) (players r) -> id p = pid /\ 0 <= score p) /\
  (forall pid rec, In (pid, rec) (answers r) ->
     0 <= points rec /\ (correct rec = false -> points rec = 0)).

(** The round counter and the state of a room agree. *)
Definition sound_round (r : Room) : Prop :=
  0 <= questionNumber r /\
  (gameState r = ROUND_END <-> 5 < questionNumber r) /\
  (gameState r = LOBBY -> currentGame r = None) /\
  (gameState r = PLAYING -> currentGame r <> None).

(** The question of a room and its time stamp are set together, and the
    question comes from the catalogue. *)
Definition sound_question (r : Room) : Prop :=
  (currentQuestion r = None <-> questionStartTime r = None) /\
  (forall question, currentQuestion r = Some question -> In question triviaQuestions) /\
  (currentQuestion r = None -> answers r = []).

(** The text holds ASCII characters only. *)
Fixpoint ascii_text (s : string) : bool :=
  match s with
  | EmptyString => true
  | String ch s' => (nat_of_ascii ch <? 128)%nat && ascii_text s'
  end.

(** [Math.floor(r * k)] is [n], the product taken in doubles. *)
Definition double_floor_times (r : float) (k n : Z) : bool :=
  floor_is (PrimFloat.mul r (to_double k)) n.

(** [Math.floor(1000 + r * 9000)] is [n], in doubles. *)
Definition double_floor_number (r : float) (n : Z) : bool :=
  floor_is (PrimFloat.add (to_double 1000) (PrimFloat.mul r (to_double 9000))) n.

Definition last_question_room : Room :=
  Eval vm_compute in
    match JsMap.get "COOL-1000" (registry last_question_server) with
    | Some r => r
    | None => newRoom "" ""
    end.

(** * Properties *)

(** ** Facts about [JsMap] *)

Section JsMapFacts.
Context {V : Type}.
Implicit Types (m : JsMap.t V) (k : string) (v : V).

Lemma get_set_same k v m : JsMap.get k (JsMap.set k v m) = Some v.
Proof.
  induction m as [|[k' v'] m IH]; simpl.
  - now rewrite String.eqb_refl.
  - destruct (k' =? k)%string eqn:E; simpl.
    + now rewrite String.eqb_refl.
    + now rewrite E.
Qed.

Lemma get_set_other k k0 v m :
  k0 <> k -> JsMap.get k0 (JsMap.set k v m) = JsMap.get k0 m.
Proof.
  intros Hne. induction m as [|[k' v'] m IH]; simpl.
  - destruct (k =? k0)%string eqn:E; [|reflexivity].
    apply String.eqb_eq in E. congruence.
  - destruct (k' =? k)%string eqn:E; simpl.
    + apply String.eqb_eq in E. subst k'.
      destruct (k =? k0)%string eqn:E0; [|reflexivity].
      apply String.eqb_eq in E0. congruence.
    + destruct (k' =? k0)%string; [reflexivity | exact IH].
Qed.

Lemma get_modify_same k (f : V -> V) m :
  JsMap.get k (JsMap.modify k f m) = option_map f (JsMap.get k m).
Proof.
  induction m as [|[k' v'] m IH]; simpl; [reflexivity|].
  destruct (k' =? k)%string eqn:E; simpl; rewrite E; [reflexivity | exact IH].
Qed.

Lemma get_modify_other k k0 (f : V -> V) m :
  k0 <> k -> JsMap.get k0 (JsMap.modify k f m) = JsMap.get k0 m.
Proof.
  intros Hne. induction m as [|[k' v'] m IH]; simpl; [reflexivity|].
  destruct (k' =? k)%string eqn:E; simpl.
  - apply String.eqb_eq in E. subst k'.
    destruct (k =? k0)%string eqn:E0; [|reflexivity].
    apply String.eqb_eq in E0. congruence.
  - destruct (k' =? k0)%string; [reflexivity | exact IH].
Qed.

Lemma keys_modify k (f : V -> V) m : JsMap.keys (JsMap.modify k f m) = JsMap.keys m.
Proof.
  induction m as [|[k' v'] m IH]; simpl; [reflexivity|].
  destruct (k' =? k)%string; simpl; [reflexivity | now rewrite IH].
Qed.

Lemma size_modify k (f : V -> V) m : JsMap.size (JsMap.modify k f m) = JsMap.size m.
Proof.
  unfold JsMap.size. f_equal.
  rewrite <- (length_map fst (JsMap.modify k f m)), <- (length_map fst m).
  f_equal. apply keys_modify.
Qed.

Lemma has_get k m : JsMap.has k m = true <-> exists v, JsMap.get k m = Some v.
Proof.
  unfold JsMap.has. destruct (JsMap.get k m).
  - split; eauto.
  - split; [discriminate | intros [? ?]; discriminate].
Qed.

Lemma get_in_keys k v m : JsMap.get k m = Some v -> In k (JsMap.keys m).
Proof.
  induction m as [|[k' v'] m IH]; simpl; [discriminate|].
  destruct (k' =? k)%string eqn:E.
  - apply String.eqb_eq in E. auto.
  - auto.
Qed.

Lemma get_none_keys k m : JsMap.get k m = None -> ~ In k (JsMap.keys m).
Proof.
  induction m as [|[k' v'] m IH]; simpl; [tauto|].
  destruct (k' =? k)%string eqn:E; [discriminate|].
  apply String.eqb_neq in E. intros H [H1|H1]; [congruence | now apply IH].
Qed.

Lemma keys_set_present k v m :
  JsMap.has k m = true -> JsMap.keys (JsMap.set k v m) = JsMap.keys m.
Proof.
  unfold JsMap.has. induction m as [|[k' v'] m IH]; simpl; [discriminate|].
  destruct (k' =? k)%string eqn:E; simpl.
  - apply String.eqb_eq in E. now subst.
  - intros H. now rewrite IH.
Qed.

Lemma keys_set_absent k v m :
  JsMap.has k m = false -> JsMap.keys (JsMap.set k v m) = (JsMap.keys m ++ [k])%list.
Proof.
  unfold JsMap.has. induction m as [|[k' v'] m IH]; simpl; [reflexivity|].
  destruct (k' =? k)%string eqn:E; simpl; [discriminate|].
  intros H. now rewrite IH.
Qed.

Lemma wf_set k v m : JsMap.wf m -> JsMap.wf (JsMap.set k v m).
Proof.
  unfold JsMap.wf. intros Hwf.
  destruct (JsMap.has k m) eqn:E.
  - now rewrite keys_set_present.
  - rewrite keys_set_absent by assumption.
    apply NoDup_incl_NoDup with (l := k :: JsMap.keys m).
    + constructor; [|assumption].
      unfold JsMap.has in E. destruct (JsMap.get k m) eqn:G; [discriminate|].
      now apply get_none_keys.
    + rewrite length_app. simpl. lia.
    + intros x Hx. apply in_or_app. simpl in *. tauto.
Qed.

Lemma wf_modify k (f : V -> V) m : JsMap.wf m -> JsMap.wf (JsMap.modify k f m).
Proof. unfold JsMap.wf. now rewrite keys_modify. Qed.

Lemma wf_delete k m : JsMap.wf m -> JsMap.wf (JsMap.delete k m).
Proof.
  unfold JsMap.wf, JsMap.delete. induction m as [|[k' v'] m IH]; simpl; [auto|].
  intros H. inversion H as [|? ? Hn Hd]; subst.
  destruct (k' =? k)%string; simpl; [auto|].
  constructor; [|auto].
  intros Hin. apply Hn. apply in_map_iff in Hin. destruct Hin as [e [He Hf]].
  apply filter_In in Hf. apply in_map_iff. exists e. tauto.
Qed.

Lemma get_delete_same k m : JsMap.get k (JsMap.delete k m) = None.
Proof.
  unfold JsMap.delete. induction m as [|[k' v'] m IH]; simpl; [reflexivity|].
  destruct (k' =? k)%string eqn:E; simpl; [exact IH | now rewrite E].
Qed.

Lemma get_delete_other k k0 m :
  k0 <> k -> JsMap.get k0 (JsMap.delete k m) = JsMap.get k0 m.
Proof.
  intros Hne. unfold JsMap.delete.
  induction m as [|[k' v'] m IH]; simpl; [reflexivity|].
  destruct (k' =? k)%string eqn:E; simpl.
  - apply String.eqb_eq in E. subst k'.
    destruct (k =? k0)%string eqn:E0; [|exact IH].
    apply String.eqb_eq in E0. congruence.
  - destruct (k' =? k0)%string; [reflexivity | exact IH].
Qed.

Lemma size_set_present k v m :
  JsMap.has k m = true -> JsMap.size (JsMap.set k v m) = JsMap.size m.
Proof.
  intros H. unfold JsMap.size. f_equal.
  rewrite <- (length_map fst (JsMap.set k v m)), <- (length_map fst m).
  f_equal. now apply keys_set_present.
Qed.

Lemma size_set_absent k v m :
  JsMap.has k m = false -> JsMap.size (JsMap.set k v m) = JsMap.size m + 1.
Proof.
  intros H. unfold JsMap.size.
  rewrite <- (length_map fst (JsMap.set k v m)), <- (length_map fst m).
  fold (JsMap.keys (JsMap.set k v m)). rewrite keys_set_absent by assumption.
  rewrite length_app. simpl. unfold JsMap.keys. lia.
Qed.

End JsMapFacts.

(** ** Facts about the room lookup by player *)

Lemma find_room_has playerId rooms roomCode room :
  find_room playerId rooms = Some (roomCode, room) ->
  JsMap.has playerId (players room) = true.
Proof.
  induction rooms as [|[c r] rest IH]; simpl; [discriminate|].
  destruct (JsMap.has playerId (players r)) eqn:E; [|exact IH].
  intros H. injection H as <- <-. exact E.
Qed.

Lemma find_room_In playerId rooms roomCode room :
  find_room playerId rooms = Some (roomCode, room) -> In (roomCode, room) rooms.
Proof.
  induction rooms as [|[c r] rest IH]; simpl; [discriminate|].
  destruct (JsMap.has playerId (players r)); [|auto].
  intros H. injection H as <- <-. auto.
Qed.

Lemma find_room_store_found playerId rooms roomCode room room' :
  find_room playerId rooms = Some (roomCode, room) ->
  JsMap.has playerId (players room') = true ->
  find_room playerId (store_found playerId room' rooms) = Some (roomCode, room').
Proof.
  intros Hfind Hhas. induction rooms as [|[c r] rest IH]; simpl in *; [discriminate|].
  destruct (JsMap.has playerId (players r)) eqn:E; simpl.
  - injection Hfind as <- <-. now rewrite Hhas.
  - rewrite E. auto.
Qed.

Lemma keys_store_found playerId room' rooms :
  JsMap.keys (store_found playerId room' rooms) = JsMap.keys rooms.
Proof.
  induction rooms as [|[c r] rest IH]; simpl; [reflexivity|].
  destruct (JsMap.has playerId (players r)); simpl; [reflexivity | now rewrite IH].
Qed.

(** Reading the registry by code after the found room was assigned to: the
    entry is the old one, or it is the found room with its new contents. *)
Lemma get_store_found playerId room' rooms k r' :
  JsMap.get k (store_found playerId room' rooms) = Some r' ->
  JsMap.get k rooms = Some r' \/
  (r' = room' /\ exists r, find_room playerId rooms = Some (k, r) /\
                           JsMap.get k rooms = Some r).
Proof.
  induction rooms as [|[c r] rest IH]; simpl; [discriminate|].
  destruct (JsMap.has playerId (players r)) eqn:E; simpl.
  - destruct (c =? k)%string eqn:Ek; [|auto].
    apply String.eqb_eq in Ek. subst c.
    intros H. injection H as <-. right. eauto.
  - destruct (c =? k)%string; auto.
Qed.

(** ** Facts about the score of an answer *)

Lemma score_points_correct timeElapsed :
  score_points true timeElapsed = 100 + Z.max 0 (15000 - timeElapsed) / 100.
Proof.
  unfold score_points, timeBonus.
  set (n := Z.max 0 (15000 - timeElapsed)).
  assert (E : (100 + inject_Z n / 1000 * 10 == (100 * 100 + n) # 100)%Q).
  { unfold Qeq, Qplus, Qmult, Qdiv, Qinv, inject_Z.
    cbn -[Z.mul Z.add Pos.mul]. lia. }
  rewrite (Qfloor_comp _ _ E). unfold Qfloor. cbn [Qnum Qden].
  now rewrite Z.div_add_l by lia.
Qed.

Lemma score_points_nonneg isCorrect timeElapsed : 0 <= score_points isCorrect timeElapsed.
Proof.
  destruct isCorrect; [|simpl; lia].
  rewrite score_points_correct.
  assert (0 <= Z.max 0 (15000 - timeElapsed) / 100) by (apply Z.div_pos; lia).
  lia.
Qed.

(** ** The time bonus in double precision

    JavaScript computes the bonus in IEEE 754 doubles.  The embedding computes
    it in exact rationals; the two agree: for every answer given at or after
    the question's time stamp, the floor of the double
    [100 + (max(0, 15000 - timeElapsed) / 1000) * 10] is the number of points
    of the embedding. *)

Lemma double_agrees_window :
  forallb double_agrees (seq 0 (Z.to_nat 15001)) = true.
Proof. vm_compute. reflexivity. Qed.

Lemma double_points_floor timeElapsed :
  0 <= timeElapsed ->
  floor_is (double_points (Z.max 0 (15000 - timeElapsed)))
           (score_points true timeElapsed) = true.
Proof.
  intros Hpos. rewrite score_points_correct.
  set (n := Z.max 0 (15000 - timeElapsed)).
  assert (Hn : 0 <= n <= 15000) by (unfold n; lia).
  pose proof double_agrees_window as Hall.
  rewrite forallb_forall in Hall.
  specialize (Hall (Z.to_nat n)).
  unfold double_agrees in Hall. rewrite Z2Nat.id in Hall by lia.
  apply Hall. apply in_seq. lia.
Qed.

(** ** Executable runs, for concrete scenarios *)

Lemma exec_step s i s' :
  admissible s i -> exec s i = Some s' -> exists effects, step s i s' effects.
Proof.
  unfold exec. intros Ha He.
  destruct (handle i (registry s)) as [[rooms' effects]|] eqn:Hh; [|discriminate].
  injection He as <-. exists effects. now constructor.
Qed.

Lemma run_reachable inputs : forall s s',
  reachable s -> admissible_run inputs s -> run inputs s = Some s' -> reachable s'.
Proof.
  induction inputs as [|i rest IH]; simpl; intros s s' Hr Ha Hrun.
  - now injection Hrun as <-.
  - destruct Ha as [Hi Hrest].
    destruct (exec s i) as [s1|] eqn:He; [|discriminate].
    destruct (exec_step _ _ _ Hi He) as [effects Hstep].
    eapply IH; [|exact Hrest|exact Hrun].
    eapply reachable_step; eassumption.
Qed.

(** ** C1: scoring and recording of a submitted answer *)

(** Claim C1. A [submit_answer] that finds the player's room with a current
    question succeeds; the answer is correct exactly when it equals the
    question's stored answer; with [elapsed = now - questionStartTime] and
    [bonus = max(0, 15000 - elapsed) / 1000] the points are
    [floor(100 + bonus * 10)] for a correct answer (240 at 1000 ms, 100 from
    15000 ms on) and 0 for a wrong one; the player's score grows by the
    points when correct and is unchanged otherwise; the record of the answer
    is stored under the player's id, whatever was stored there before; other
    players and other records are untouched. *)
Theorem submit_answer_scores_and_records
    (sock playerId given : string) (now : Z) (rooms : Rooms)
    (roomCode : string) (room : Room) (question : Question) :
  find_room playerId rooms = Some (roomCode, room) ->
  currentQuestion room = Some question ->
  let isCorrect := (given =? a question)%string in
  let elapsed := now - toNumber (questionStartTime room) in
  let bonus := (inject_Z (Z.max 0 (15000 - elapsed)) / 1000)%Q in
  let pts := if isCorrect then Qfloor (100 + bonus * 10)%Q else 0 in
  exists player player' room' rooms' effects,
    submit_answer sock playerId given now rooms = Done (rooms', effects) /\
    find_room playerId rooms' = Some (roomCode, room') /\
    JsMap.get playerId (players room) = Some player /\
    JsMap.get playerId (players room') = Some player' /\
    (isCorrect = true <-> given = a question) /\
    (isCorrect = true -> elapsed = 1000 -> pts = 240) /\
    (isCorrect = true -> 15000 <= elapsed -> pts = 100) /\
    (isCorrect = true -> score player' = score player + pts) /\
    (isCorrect = false -> pts = 0 /\ player' = player) /\
    (id player', name player', avatar player', socketId player')
      = (id player, name player, avatar player, socketId player) /\
    JsMap.get playerId (answers room') = Some (mkAnswer given isCorrect pts) /\
    (JsMap.has playerId (answers room) = true ->
       JsMap.keys (answers room') = JsMap.keys (answers room)) /\
    (forall other, other <> playerId ->
       JsMap.get other (players room') = JsMap.get other (players room) /\
       JsMap.get other (answers room') = JsMap.get other (answers room)) /\
    In (SocketEmit sock (answer_result isCorrect pts (a question) (score player')))
       effects.
Proof.
  intros Hfind Hq isCorrect elapsed bonus pts.
  pose proof (find_room_has _ _ _ _ Hfind) as Hhas.
  apply has_get in Hhas. destruct Hhas as [player Hplayer].
  assert (Hpts : pts = score_points isCorrect elapsed) by reflexivity.
  set (player' := if isCorrect then set_score (score player + pts) player else player).
  set (room1 := set_players (JsMap.modify playerId (fun _ => player') (players room)) room).
  set (room2 := set_answers
                  (JsMap.set playerId (mkAnswer given isCorrect pts) (answers room1)) room1).
  exists player, player', room2.
  unfold submit_answer. rewrite Hfind, Hq, Hplayer. simpl bind.
  fold isCorrect elapsed. rewrite <- Hpts. fold player' room1 room2.
  eexists. eexists. split; [reflexivity|].
  assert (Hget' : JsMap.get playerId (players room2) = Some player').
  { simpl. rewrite get_modify_same, Hplayer. reflexivity. }
  split.
  { eapply find_room_store_found; [exact Hfind|].
    apply has_get. eauto. }
  split; [reflexivity|]. split; [exact Hget'|].
  split; [apply String.eqb_eq|].
  split.
  { intros Hc He. rewrite Hpts, Hc, score_points_correct, He. reflexivity. }
  split.
  { intros Hc He. rewrite Hpts, Hc, score_points_correct.
    rewrite Z.max_l by lia. reflexivity. }
  split.
  { intros Hc. unfold player'. rewrite Hc. reflexivity. }
  split.
  { intros Hc. unfold player', pts. rewrite Hc. auto. }
  split.
  { unfold player'. destruct isCorrect; reflexivity. }
  split.
  { simpl. apply get_set_same. }
  split.
  { intros Hprior. simpl. now apply keys_set_present. }
  split.
  { intros other Hne. simpl. split.
    - now apply get_modify_other.
    - now apply get_set_other. }
  simpl. auto.
Qed.

Lemma submit_answer_scores_and_records_witness :
  exists rooms' effects room' player',
    submit_answer "s2" "bob" "2007" 6000 game_rooms = Done (rooms', effects) /\
    find_room "bob" rooms' = Some ("COOL-1000", room') /\
    JsMap.get "bob" (players room') = Some player' /\
    score player' = 240.
Proof.
  destruct (submit_answer_scores_and_records "s2" "bob" "2007" 6000 game_rooms
              "COOL-1000" game_room first_question eq_refl eq_refl)
    as (player & player' & room' & rooms' & effects
        & Hrun & Hfind & Hp & Hp' & _ & H240 & _ & Hs & _).
  exists rooms', effects, room', player'.
  repeat split; try assumption.
  rewrite (Hs eq_refl), (H240 eq_refl eq_refl).
  injection Hp as <-. reflexivity.
Defined.

(** ** C2: when a submission schedules the next question *)

Lemma strict_eq_true x y : strict_eq x y = true <-> x = Some y.
Proof.
  destruct x as [s|]; simpl.
  - rewrite String.eqb_eq. split; congruence.
  - split; discriminate.
Qed.

Lemma scheduled_app l1 l2 : scheduled (l1 ++ l2) = (scheduled l1 ++ scheduled l2)%list.
Proof.
  induction l1 as [|e l1 IH]; simpl; [reflexivity|].
  destruct e; simpl; now rewrite ?IH.
Qed.

Lemma scheduled_In c effects :
  In c (scheduled effects) <-> exists d, In (SetTimeout c d) effects.
Proof.
  induction effects as [|e effects IH]; simpl.
  - split; [tauto | intros [? []]].
  - destruct e; simpl; rewrite ?IH;
      try (split; [intros [d H]; eauto | intros [d [H|H]]; [discriminate | eauto]]).
    split.
    + intros [H|[d H]]; [subst; eauto | eauto].
    + intros [d [H|H]]; [injection H as -> _; auto | eauto].
Qed.

Lemma scheduled_send_to_players number question ps sent :
  send_to_players number question ps = Done sent -> scheduled sent = [].
Proof.
  revert sent. induction ps as [|p ps IH]; simpl; intros sent H.
  - now injection H as <-.
  - destruct question as [qu|]; simpl in H; [|discriminate].
    destruct (send_to_players number (Some qu) ps) as [rest|]; simpl in H; [|discriminate].
    injection H as <-. simpl. now apply IH.
Qed.

Lemma scheduled_disconnect sock rooms : scheduled (snd (disconnect sock rooms)) = [].
Proof.
  induction rooms as [|[c r] rest IH]; simpl; [reflexivity|].
  destruct (disconnect sock rest) as [rest' later]. simpl in IH.
  destruct (host r =? sock)%string; simpl; [exact IH|].
  destruct (find_player sock (players r)) as [[pid p]|]; simpl; exact IH.
Qed.

Lemma scheduled_nextQuestion roomCode shuffled now rooms rooms' effects :
  nextQuestion roomCode shuffled now rooms = Done (rooms', effects) ->
  scheduled effects = [].
Proof.
  unfold nextQuestion. destruct (JsMap.get roomCode rooms) as [room|].
  - destruct (5 <? _).
    + intros H. now injection H as _ <-.
    + destruct (send_to_players _ _ _) as [sent|] eqn:E; simpl; [|discriminate].
      intros H. injection H as _ <-. simpl.
      eapply scheduled_send_to_players. exact E.
  - intros H. now injection H as _ <-.
Qed.

(** Only ['start_game'] and ['submit_answer'] ever set a timer. *)
Lemma only_two_handlers_schedule i rooms rooms' effects :
  handle i rooms = Done (rooms', effects) ->
  scheduled effects <> [] ->
  (exists sock roomCode game, i = FromSocket sock (ev_start_game roomCode game)) \/
  (exists sock playerId given now, i = FromSocket sock (ev_submit_answer playerId given now)).
Proof.
  destruct i as [sock e | roomCode shuffled now]; simpl.
  - destruct e; simpl; try (intros; solve [eauto 8]).
    + unfold create_room, createRoom. intros H. injection H as _ <-.
      destruct callback; simpl; congruence.
    + unfold join_room. destruct (JsMap.get _ rooms);
        intros H; injection H as _ <-; simpl; congruence.
    + unfold buzz_in. destruct (find_room playerId rooms) as [[c r]|].
      * destruct (truthy _).
        -- intros H; injection H as _ <-; simpl; congruence.
        -- destruct (JsMap.get _ _); simpl; [|discriminate].
           intros H; injection H as _ <-; simpl; congruence.
      * intros H; injection H as _ <-; simpl; congruence.
    + intros H. injection H as H. intros Hs. exfalso. apply Hs.
      rewrite <- (scheduled_disconnect sock rooms). now rewrite H.
  - intros H Hs. exfalso. apply Hs. eapply scheduled_nextQuestion. exact H.
Qed.

(** Claim C2. A [submit_answer] that is not a no-op sets the 3000 ms timer
    for [nextQuestion] of the player's room exactly when the player is the
    one who buzzed or, with this answer recorded, the room holds as many
    answers as players; it sets no other timer.  No other handler but
    ['start_game'] sets a timer at all, and [nextQuestion] itself sets none:
    nothing forces an advance when nobody submits. *)
Theorem submit_answer_schedules_advance :
  (forall (sock playerId given : string) (now : Z) (rooms : Rooms)
          (roomCode : string) (room : Room) (question : Question),
      find_room playerId rooms = Some (roomCode, room) ->
      currentQuestion room = Some question ->
      exists room' rooms' effects,
        submit_answer sock playerId given now rooms = Done (rooms', effects) /\
        find_room playerId rooms' = Some (roomCode, room') /\
        (In (SetTimeout roomCode 3000) effects <->
           buzzedPlayer room = Some playerId \/
           JsMap.size (answers room') = JsMap.size (players room')) /\
        (forall c d, In (SetTimeout c d) effects -> c = roomCode /\ d = 3000) /\
        (scheduled effects = [roomCode] \/ scheduled effects = [])) /\
  (forall i rooms rooms' effects,
      handle i rooms = Done (rooms', effects) ->
      scheduled effects <> [] ->
      (exists sock roomCode game, i = FromSocket sock (ev_start_game roomCode game)) \/
      (exists sock playerId given now,
          i = FromSocket sock (ev_submit_answer playerId given now))) /\
  (forall roomCode shuffled now rooms rooms' effects,
      nextQuestion roomCode shuffled now rooms = Done (rooms', effects) ->
      scheduled effects = []).
Proof.
  split; [|split; [exact only_two_handlers_schedule | exact scheduled_nextQuestion]].
  intros sock playerId given now rooms roomCode room question Hfind Hq.
  pose proof (find_room_has _ _ _ _ Hfind) as Hhas.
  apply has_get in Hhas. destruct Hhas as [player Hplayer].
  unfold submit_answer. rewrite Hfind, Hq, Hplayer. simpl bind.
  set (isCorrect := (given =? a question)%string).
  set (pts := score_points isCorrect _).
  set (player' := if isCorrect then _ else _).
  set (room1 := set_players _ room).
  set (room2 := set_answers _ room1).
  exists room2. eexists. eexists. split; [reflexivity|].
  split.
  { eapply find_room_store_found; [exact Hfind|].
    apply has_get. exists player'. simpl. now rewrite get_modify_same, Hplayer. }
  match goal with |- context [if ?c then _ else _] => set (cond := c) end.
  assert (Hcond : cond = true
                  <-> buzzedPlayer room = Some playerId \/
                      JsMap.size (answers room2) = JsMap.size (players room2)).
  { unfold cond. rewrite orb_true_iff, strict_eq_true, Z.eqb_eq. reflexivity. }
  destruct cond.
  - split; [|split].
    + split; [intros _; now apply Hcond | intros _; simpl; auto].
    + simpl. intros c d [H|[H|[H|[]]]]; try discriminate.
      injection H as <- <-. auto.
    + left. reflexivity.
  - split; [|split].
    + split.
      * simpl. intros [H|[H|[]]]; discriminate.
      * intros H. apply Hcond in H. discriminate.
    + simpl. intros c d [H|[H|[]]]; discriminate.
    + right. reflexivity.
Qed.

Lemma submit_answer_schedules_advance_witness :
  exists rooms' effects,
    submit_answer "s2" "bob" "2007" 6000 game_rooms = Done (rooms', effects) /\
    ~ In (SetTimeout "COOL-1000" 3000) effects.
Proof.
  destruct (proj1 submit_answer_schedules_advance "s2" "bob" "2007" 6000 game_rooms
              "COOL-1000" game_room first_question eq_refl eq_refl)
    as (room' & rooms' & effects & Hrun & Hfind & Hiff & _).
  exists rooms', effects. split; [exact Hrun|].
  intros Hin. apply Hiff in Hin.
  vm_compute in Hrun. injection Hrun as <- _.
  vm_compute in Hfind. injection Hfind as <-.
  destruct Hin as [H|H]; vm_compute in H; discriminate.
Defined.

(** ** C5: [nextQuestion] and the leaderboard *)

Section SortFacts.
Implicit Types (l : list Player) (x : Player).

Lemma insert_perm x l : Permutation (insert by_score x l) (x :: l).
Proof.
  induction l as [|y l IH]; simpl; [reflexivity|].
  destruct (by_score x y <=? 0); [reflexivity|].
  rewrite IH. apply perm_swap.
Qed.

Lemma sort_perm l : Permutation (sort by_score l) l.
Proof.
  induction l as [|x l IH]; simpl; [reflexivity|].
  rewrite insert_perm. now constructor.
Qed.

Lemma insert_sorted x l :
  StronglySorted score_desc l -> StronglySorted score_desc (insert by_score x l).
Proof.
  induction l as [|y l IH]; simpl; intros Hs.
  - repeat constructor.
  - inversion Hs as [|? ? Hl Hy]; subst.
    destruct (by_score x y <=? 0) eqn:E.
    + apply Z.leb_le in E. unfold by_score in E.
      constructor; [exact Hs|].
      constructor; [unfold score_desc; lia|].
      eapply Forall_impl; [|exact Hy].
      unfold score_desc. intros z Hz. lia.
    + apply Z.leb_gt in E. unfold by_score in E.
      constructor; [auto|].
      apply Forall_forall. intros z Hz.
      apply (Permutation_in _ (insert_perm x l)) in Hz.
      destruct Hz as [<-|Hz].
      * unfold score_desc. lia.
      * rewrite Forall_forall in Hy. auto.
Qed.

Lemma sort_sorted l : StronglySorted score_desc (sort by_score l).
Proof.
  induction l as [|x l IH]; simpl; [constructor | now apply insert_sorted].
Qed.

(** Stability: the players of any one score come out in the order they
    went in. *)
Lemma insert_stable v x l :
  filter (fun p => score p =? v) (insert by_score x l)
  = filter (fun p => score p =? v) (x :: l).
Proof.
  induction l as [|y l IH]; simpl; [reflexivity|].
  destruct (by_score x y <=? 0) eqn:E; [reflexivity|].
  apply Z.leb_gt in E. unfold by_score in E.
  simpl. rewrite IH. simpl.
  destruct (score y =? v) eqn:Ey, (score x =? v) eqn:Ex; try reflexivity.
  apply Z.eqb_eq in Ey, Ex. lia.
Qed.

Lemma sort_stable v l :
  filter (fun p => score p =? v) (sort by_score l)
  = filter (fun p => score p =? v) l.
Proof.
  induction l as [|x l IH]; simpl; [reflexivity|].
  rewrite insert_stable. simpl. now rewrite IH.
Qed.

(** The three properties fix the result: two lists sorted by descending score
    that list the players of every score in the same order are equal, so
    every stable sort returns what [sort by_score] returns. *)
Lemma stable_sorted_unique l1 : forall l2,
  StronglySorted score_desc l1 ->
  StronglySorted score_desc l2 ->
  (forall v, filter (fun p => score p =? v) l1 = filter (fun p => score p =? v) l2) ->
  l1 = l2.
Proof.
  induction l1 as [|x l1 IH]; intros l2 Hs1 Hs2 Hf.
  - destruct l2 as [|y l2]; [reflexivity|].
    specialize (Hf (score y)). simpl in Hf. rewrite Z.eqb_refl in Hf. discriminate.
  - destruct l2 as [|y l2].
    { specialize (Hf (score x)). simpl in Hf. rewrite Z.eqb_refl in Hf. discriminate. }
    inversion Hs1 as [|? ? Hs1' Hx]; subst.
    inversion Hs2 as [|? ? Hs2' Hy]; subst.
    rewrite Forall_forall in Hx, Hy.
    assert (Hxy : score x <= score y).
    { pose proof (Hf (score x)) as H. simpl in H. rewrite Z.eqb_refl in H.
      destruct (score y =? score x) eqn:E; [apply Z.eqb_eq in E; lia|].
      assert (Hin : In x (filter (fun p => score p =? score x) l2))
        by (rewrite <- H; now left).
      apply filter_In in Hin. exact (Hy x (proj1 Hin)). }
    assert (Hyx : score y <= score x).
    { pose proof (Hf (score y)) as H. simpl in H. rewrite Z.eqb_refl in H.
      destruct (score x =? score y) eqn:E; [apply Z.eqb_eq in E; lia|].
      assert (Hin : In y (filter (fun p => score p =? score y) l1))
        by (rewrite H; now left).
      apply filter_In in Hin. exact (Hx y (proj1 Hin)). }
    assert (Heq : x = y).
    { pose proof (Hf (score x)) as H. simpl in H. rewrite Z.eqb_refl in H.
      replace (score y =? score x) with true in H by (symmetry; apply Z.eqb_eq; lia).
      now injection H. }
    subst y. f_equal. apply IH; [assumption..|].
    intros v. specialize (Hf v). simpl in Hf.
    destruct (score x =? v); [now injection Hf | exact Hf].
Qed.

Lemma sort_unique l l' :
  StronglySorted score_desc l' ->
  (forall v, filter (fun p => score p =? v) l' = filter (fun p => score p =? v) l) ->
  l' = sort by_score l.
Proof.
  intros Hs Hf. apply stable_sorted_unique; [exact Hs | apply sort_sorted |].
  intros v. now rewrite Hf, sort_stable.
Qed.
End SortFacts.

Lemma send_to_players_question number question ps :
  send_to_players number (Some question) ps
  = Done (map (fun p => EmitTo (socketId p)
                          (new_question_redacted number (q question) (choices question)))
              ps).
Proof.
  induction ps as [|p ps IH]; simpl; [reflexivity|].
  now rewrite IH.
Qed.

Lemma shuffled_first shuffled :
  Permutation shuffled triviaQuestions ->
  exists question, nth_error (getRandomQuestions shuffled 1) 0 = Some question /\
                   In question triviaQuestions.
Proof.
  intros Hp. destruct shuffled as [|question rest].
  - apply Permutation_nil in Hp. discriminate.
  - exists question. split; [reflexivity|].
    eapply Permutation_in; [exact Hp | now left].
Qed.

(** Claim C5. [nextQuestion] on an existing room adds one to
    [questionNumber].  Past 5 it sets [ROUND_END] and emits, as its only
    effect, the leaderboard: the room's players in descending order of score,
    players of equal score in their insertion order; the question fields are
    left as they were.  Otherwise it installs a question of the catalogue,
    clears [buzzedPlayer] and [answers] and stamps [questionStartTime]. *)
Theorem nextQuestion_round
    (roomCode : string) (shuffled : list Question) (now : Z)
    (rooms : Rooms) (room : Room) :
  JsMap.get roomCode rooms = Some room ->
  Permutation shuffled triviaQuestions ->
  exists room' rooms' effects,
    nextQuestion roomCode shuffled now rooms = Done (rooms', effects) /\
    JsMap.get roomCode rooms' = Some room' /\
    (forall k, k <> roomCode -> JsMap.get k rooms' = JsMap.get k rooms) /\
    questionNumber room' = questionNumber room + 1 /\
    players room' = players room /\
    (5 < questionNumber room' ->
       gameState room' = ROUND_END /\
       currentQuestion room' = currentQuestion room /\
       buzzedPlayer room' = buzzedPlayer room /\
       answers room' = answers room /\
       questionStartTime room' = questionStartTime room /\
       exists leaderboard,
         effects = [EmitTo roomCode (round_end leaderboard)] /\
         Permutation leaderboard (JsMap.values (players room)) /\
         StronglySorted (fun x y => score y <= score x) leaderboard /\
         forall v, filter (fun p => score p =? v) leaderboard
                   = filter (fun p => score p =? v) (JsMap.values (players room))) /\
    (questionNumber room' <= 5 ->
       gameState room' = gameState room /\
       buzzedPlayer room' = None /\
       answers room' = [] /\
       questionStartTime room' = Some now /\
       exists question,
         In question triviaQuestions /\
         currentQuestion room' = Some question /\
         In (EmitTo (host room) (new_question (questionNumber room') (Some question)))
            effects).
Proof.
  intros Hget Hperm.
  destruct (shuffled_first _ Hperm) as [question [Hq Hin]].
  unfold nextQuestion. rewrite Hget.
  cbn [questionNumber set_questionNumber].
  destruct (5 <? questionNumber room + 1) eqn:E.
  - apply Z.ltb_lt in E.
    eexists. eexists. eexists. split; [reflexivity|].
    split; [rewrite get_modify_same, Hget; reflexivity|].
    split; [intros k Hk; now apply get_modify_other|].
    split; [reflexivity|]. split; [reflexivity|].
    split; [|simpl; lia].
    intros _. repeat (split; [reflexivity|]).
    eexists. split; [reflexivity|].
    split; [apply sort_perm|].
    split; [apply sort_sorted | intros v; apply sort_stable].
  - apply Z.ltb_ge in E.
    rewrite Hq, send_to_players_question. simpl bind.
    eexists. eexists. eexists. split; [reflexivity|].
    split; [rewrite get_modify_same, Hget; reflexivity|].
    split; [intros k Hk; now apply get_modify_other|].
    split; [reflexivity|]. split; [reflexivity|].
    split; [simpl; lia|].
    intros _. repeat (split; [reflexivity|]).
    exists question. split; [exact Hin|]. split; [reflexivity|].
    simpl. auto.
Qed.

Ltac admissible_inputs :=
  repeat match goal with
    | |- _ /\ _ => split
    | |- True => exact I
    | |- is_random _ => split; vm_compute; congruence
    | |- Permutation triviaQuestions triviaQuestions => apply Permutation_refl
    | |- In _ _ => vm_compute; tauto
    | |- admissible _ _ => cbn [admissible]
    | |- admissible_run _ _ => cbn [admissible_run]
    | |- match exec ?s ?i with _ => _ end =>
        let o := eval vm_compute in (exec s i) in
        change (exec s i) with o; cbv iota beta
    end.

Lemma round_inputs_admissible : admissible_run round_inputs initial.
Proof. unfold round_inputs, game_inputs, one_question. cbn [app]. admissible_inputs. Qed.

Lemma round_end_server_reachable : reachable round_end_server.
Proof.
  apply (run_reachable round_inputs initial).
  - constructor.
  - exact round_inputs_admissible.
  - vm_compute. reflexivity.
Qed.

Lemma nextQuestion_round_witness :
  exists rooms' leaderboard,
    nextQuestion "COOL-1000" triviaQuestions 30000 (registry last_question_server)
    = Done (rooms', [EmitTo "COOL-1000" (round_end leaderboard)]) /\
    map id leaderboard = ["bob"; "ann"].
Proof.
  destruct (nextQuestion_round "COOL-1000" triviaQuestions 30000
              (registry last_question_server)
              (set_questionNumber 5 (set_gameState PLAYING round_end_room))
              eq_refl (Permutation_refl _))
    as (room' & rooms' & effects & Hrun & _ & _ & Hn & _ & Hend & _).
  rewrite Hn in Hend.
  destruct (Hend ltac:(simpl; lia)) as (_ & _ & _ & _ & _ & leaderboard & -> & _).
  exists rooms', leaderboard. split; [exact Hrun|].
  vm_compute in Hrun. injection Hrun as _ <-. reflexivity.
Defined.

(** ** How each handler changes the rooms of the registry *)

Section RegistryFacts.
Context {V : Type}.
Implicit Types (m : JsMap.t V) (k : string) (v : V).

Lemma in_set k v m c x :
  In (c, x) (JsMap.set k v m) -> In (c, x) m \/ (c = k /\ x = v).
Proof.
  induction m as [|[k' v'] m IH]; simpl.
  - intros [H|[]]. injection H as <- <-. auto.
  - destruct (k' =? k)%string; simpl.
    + intros [H|H]; [injection H as <- <-|]; auto.
    + intros [H|H]; [auto|]. destruct (IH H); auto.
Qed.

Lemma in_modify k (f : V -> V) m c x :
  In (c, x) (JsMap.modify k f m) ->
  In (c, x) m \/ (c = k /\ exists v, JsMap.get k m = Some v /\ x = f v).
Proof.
  induction m as [|[k' v'] m IH]; simpl; [tauto|].
  destruct (k' =? k)%string eqn:E; simpl.
  - apply String.eqb_eq in E. subst k'.
    intros [H|H]; [injection H as <- <-|]; eauto.
  - intros [H|H]; [auto|]. destruct (IH H) as [|[? ?]]; auto.
Qed.

Lemma get_In k v m : JsMap.get k m = Some v -> In (k, v) m.
Proof.
  induction m as [|[k' v'] m IH]; simpl; [discriminate|].
  destruct (k' =? k)%string eqn:E.
  - apply String.eqb_eq in E. subst k'. intros H. injection H as <-. auto.
  - auto.
Qed.
End RegistryFacts.

Lemma in_store_found playerId room' rooms c r :
  In (c, r) (store_found playerId room' rooms) ->
  In (c, r) rooms \/ (r = room' /\ exists r0, find_room playerId rooms = Some (c, r0)).
Proof.
  induction rooms as [|[c0 r0] rest IH]; simpl; [tauto|].
  destruct (JsMap.has playerId (players r0)); simpl.
  - intros [H|H]; [injection H as <- <-|]; eauto.
  - intros [H|H]; [auto|]. destruct (IH H); auto.
Qed.

(** After a [disconnect] a room of the registry is a room that was there,
    with at most one player taken out. *)
Lemma in_disconnect sock rooms c r :
  In (c, r) (fst (disconnect sock rooms)) ->
  exists r0, In (c, r0) rooms /\
    (r = r0 \/ exists playerId, r = set_players (JsMap.delete playerId (players r0)) r0).
Proof.
  induction rooms as [|[c0 r0] rest IH]; simpl; [tauto|].
  destruct (disconnect sock rest) as [rest' later]. simpl in IH.
  destruct (host r0 =? sock)%string; simpl.
  - intros H. destruct (IH H) as [r1 [? ?]]. eauto.
  - destruct (find_player sock (players r0)) as [[pid p]|]; simpl.
    + intros [H|H]; [injection H as <- <-; eauto 6|].
      destruct (IH H) as [r1 [? ?]]. eauto.
    + intros [H|H]; [injection H as <- <-; eauto|].
      destruct (IH H) as [r1 [? ?]]. eauto.
Qed.

(** ** C3: when [currentQuestion] is set *)

Lemma handle_holds_question (s : Server) (i : Input) rooms' effects :
  admissible s i ->
  (forall c r, In (c, r) (registry s) -> holds_question r) ->
  handle i (registry s) = Done (rooms', effects) ->
  forall c r, In (c, r) rooms' -> holds_question r.
Proof.
  intros Ha Hinv Hh c r Hin.
  destruct i as [sock e | roomCode shuffled now]; simpl in Hh.
  - destruct e; simpl in Hh.
    + unfold create_room, createRoom in Hh. injection Hh as <- _.
      apply in_set in Hin. destruct Hin as [Hin|[_ ->]]; [eauto|].
      intros [H|H]; simpl in H; [lia | discriminate].
    + unfold join_room in Hh.
      destruct (JsMap.get (toUpperCase roomCode) (registry s)) as [room|] eqn:G.
      * injection Hh as <- _. apply in_modify in Hin.
        destruct Hin as [Hin|[_ [v [_ ->]]]]; [eauto|].
        apply get_In in G. exact (Hinv _ _ G).
      * injection Hh as <- _. eauto.
    + unfold start_game in Hh.
      destruct (JsMap.get roomCode (registry s)) as [room|] eqn:G.
      * destruct (negb _).
        -- injection Hh as <- _. eauto.
        -- injection Hh as <- _. apply in_modify in Hin.
           destruct Hin as [Hin|[_ [v [_ ->]]]]; [eauto|].
           intros [H|H]; simpl in H; [lia | discriminate].
      * injection Hh as <- _. eauto.
    + unfold buzz_in in Hh.
      destruct (find_room playerId (registry s)) as [[c0 room]|] eqn:F.
      * destruct (truthy _).
        -- injection Hh as <- _. eauto.
        -- destruct (JsMap.get _ _); simpl in Hh; [|discriminate].
           injection Hh as <- _. apply in_store_found in Hin.
           destruct Hin as [Hin|[-> _]]; [eauto|].
           apply find_room_In in F. exact (Hinv _ _ F).
      * injection Hh as <- _. eauto.
    + unfold submit_answer in Hh.
      destruct (find_room playerId (registry s)) as [[c0 room]|] eqn:F.
      * destruct (currentQuestion room) as [question|] eqn:Q.
        -- destruct (JsMap.get _ _); simpl in Hh; [|discriminate].
           injection Hh as <- _. apply in_store_found in Hin.
           destruct Hin as [Hin|[-> _]]; [eauto|].
           intros _. simpl. rewrite Q. discriminate.
        -- injection Hh as <- _. eauto.
      * injection Hh as <- _. eauto.
    + injection Hh as Hh. assert (Hr : rooms' = fst (disconnect sock (registry s)))
        by now rewrite Hh.
      subst rooms'. apply in_disconnect in Hin.
      destruct Hin as [r0 [Hin [->|[pid ->]]]]; exact (Hinv _ _ Hin).
  - destruct Ha as [_ Hperm].
    destruct (shuffled_first _ Hperm) as [question [Hq _]].
    unfold nextQuestion in Hh.
    destruct (JsMap.get roomCode (registry s)) as [room|] eqn:G.
    + pose proof (Hinv _ _ (get_In _ _ _ G)) as Hroom.
      cbn [questionNumber set_questionNumber] in Hh.
      destruct (5 <? questionNumber room + 1) eqn:E.
      * apply Z.ltb_lt in E. injection Hh as <- _. apply in_modify in Hin.
        destruct Hin as [Hin|[_ [v [_ ->]]]]; [eauto|].
        intros _. simpl. apply Hroom. left. lia.
      * rewrite Hq, send_to_players_question in Hh. simpl in Hh.
        injection Hh as <- _. apply in_modify in Hin.
        destruct Hin as [Hin|[_ [v [_ ->]]]]; [eauto|].
        intros _. simpl. discriminate.
    + injection Hh as <- _. eauto.
Qed.

Lemma reachable_holds_question s :
  reachable s -> forall c r, In (c, r) (registry s) -> holds_question r.
Proof.
  induction 1 as [|s i s' effects Hr IH Hstep].
  - simpl. tauto.
  - destruct Hstep as [rooms' effects Ha Hh]. simpl.
    eapply handle_holds_question; eassumption.
Qed.

(** The claim as the specification words it fails: a reachable room in
    [ROUND_END], hence not in [PLAYING], whose [currentQuestion] is not null. *)
Lemma currentQuestion_set_at_round_end :
  ~ (forall s roomCode room,
       reachable s ->
       JsMap.get roomCode (registry s) = Some room ->
       (currentQuestion room <> None -> gameState room = PLAYING) /\
       (gameState room = ROUND_END -> currentQuestion room = None)).
Proof.
  intros H.
  destruct (H round_end_server "COOL-1000" round_end_room
              round_end_server_reachable eq_refl) as [_ Hnull].
  specialize (Hnull eq_refl). discriminate.
Qed.

(** ** C4: the buzz lock *)

(** A buzz for a player no room holds, or in a room whose [buzzedPlayer] is
    truthy, changes nothing and sends nothing. *)
Lemma buzz_in_ignored sock playerId rooms :
  find_room playerId rooms = None \/
  (exists roomCode room, find_room playerId rooms = Some (roomCode, room) /\
                         truthy (buzzedPlayer room) = true) ->
  buzz_in sock playerId rooms = Done (rooms, []).
Proof.
  unfold buzz_in. intros [H|(roomCode & room & H & Ht)]; rewrite H; [reflexivity|].
  now rewrite Ht.
Qed.

(** First buzz wins when the first buzzer's id is not the empty string: the
    buzzer of any later buzz in that room is ignored. *)
Lemma buzz_lock_nonempty_id sock1 sock2 first second rooms roomCode room :
  first <> "" ->
  find_room first rooms = Some (roomCode, room) ->
  truthy (buzzedPlayer room) = false ->
  exists rooms1 effects1 room1,
    buzz_in sock1 first rooms = Done (rooms1, effects1) /\
    find_room first rooms1 = Some (roomCode, room1) /\
    buzzedPlayer room1 = Some first /\
    (find_room second rooms1 = Some (roomCode, room1) ->
     buzz_in sock2 second rooms1 = Done (rooms1, [])).
Proof.
  intros Hne Hfind Hfree.
  pose proof (find_room_has _ _ _ _ Hfind) as Hhas.
  destruct (proj1 (has_get _ _) Hhas) as [player Hplayer].
  unfold buzz_in at 1. rewrite Hfind, Hfree. simpl. rewrite Hplayer. simpl.
  eexists. eexists. exists (set_buzzedPlayer (Some first) room).
  split; [reflexivity|].
  split; [now apply find_room_store_found with (room := room)|].
  split; [reflexivity|].
  intros Hsecond. apply buzz_in_ignored. right.
  eexists. eexists. split; [exact Hsecond|].
  simpl. apply String.eqb_neq in Hne. now rewrite Hne.
Qed.

Lemma empty_id_server_reachable : reachable empty_id_server.
Proof.
  apply (run_reachable empty_id_inputs initial).
  - constructor.
  - unfold empty_id_inputs. admissible_inputs.
  - vm_compute. reflexivity.
Qed.

(** Claim C4 at the failing input.  The player with the empty id buzzes
    first and is recorded; [buzzedPlayer] is then the empty string, which the
    guard [room.buzzedPlayer] reads as false, so the buzz of a second player
    for the same question is recorded over it and broadcast. *)
Theorem second_buzz_overrides_empty_id :
  reachable empty_id_server /\
  exists rooms1 effects1 room1 rooms2 room2,
    buzz_in "s1" "" (registry empty_id_server) = Done (rooms1, effects1) /\
    JsMap.get "COOL-1000" rooms1 = Some room1 /\
    buzzedPlayer room1 = Some "" /\
    buzz_in "s2" "bob" rooms1
    = Done (rooms2, [ EmitTo "COOL-1000" (player_buzzed "bob" "Bob");
                      EmitTo "tv" (player_buzzed "bob" "Bob") ]) /\
    JsMap.get "COOL-1000" rooms2 = Some room2 /\
    buzzedPlayer room2 = Some "bob".
Proof.
  split; [exact empty_id_server_reachable|].
  eexists. eexists. eexists. eexists. eexists.
  split; [vm_compute; reflexivity|].
  split; [vm_compute; reflexivity|].
  split; [reflexivity|].
  split; [vm_compute; reflexivity|].
  split; [vm_compute; reflexivity|].
  reflexivity.
Qed.

(** ** C6: letter case of the room code *)

Lemma upper_ascii_idempotent c : upper_ascii (upper_ascii c) = upper_ascii c.
Proof.
  destruct c as [[] [] [] [] [] [] [] []]; reflexivity.
Qed.

Lemma toUpperCase_idempotent s : toUpperCase (toUpperCase s) = toUpperCase s.
Proof.
  induction s as [|c s IH]; simpl; [reflexivity|].
  now rewrite upper_ascii_idempotent, IH.
Qed.

(** ['join_room'] finds the room whatever the case of the letters sent: the
    registry it leaves is the one the upper-case code gives. *)
Lemma join_room_case_insensitive sock roomCode playerId playerName sentAvatar rooms :
  exists rooms' effects effectsU,
    join_room sock roomCode playerId playerName sentAvatar rooms
      = Done (rooms', effects) /\
    join_room sock (toUpperCase roomCode) playerId playerName sentAvatar rooms
      = Done (rooms', effectsU).
Proof.
  unfold join_room. rewrite toUpperCase_idempotent.
  destruct (JsMap.get (toUpperCase roomCode) rooms); eauto.
Qed.

Lemma lobby_server_reachable : reachable lobby_server.
Proof.
  apply (run_reachable (firstn 3 game_inputs) initial).
  - constructor.
  - unfold game_inputs. cbn [firstn]. admissible_inputs.
  - vm_compute. reflexivity.
Qed.

(** Claim C6 at the failing input.  The host sends ['start_game'] with the
    code of its room in lower case: the room is not found, the host is told
    it is not authorized and nothing changes, where the same event with the
    upper-case code starts the game. *)
Theorem start_game_is_case_sensitive :
  reachable lobby_server /\
  registry lobby_server = lobby_rooms /\
  toUpperCase "cool-1000" = "COOL-1000" /\
  (exists room, JsMap.get "COOL-1000" lobby_rooms = Some room /\ host room = "tv") /\
  start_game "tv" "cool-1000" "trivia" lobby_rooms
    = Done (lobby_rooms, [SocketEmit "tv" (error "Not authorized")]) /\
  (exists rooms' room',
     start_game "tv" "COOL-1000" "trivia" lobby_rooms
       = Done (rooms', [ EmitTo "COOL-1000" (game_started "trivia");
                         SetTimeout "COOL-1000" 2000 ]) /\
     JsMap.get "COOL-1000" rooms' = Some room' /\
     gameState room' = PLAYING).
Proof.
  split; [exact lobby_server_reachable|].
  split; [reflexivity|].
  split; [reflexivity|].
  split; [eexists; split; reflexivity|].
  split; [reflexivity|].
  eexists. eexists. split; [vm_compute; reflexivity|].
  split; [vm_compute; reflexivity | reflexivity].
Qed.

(** ** The handlers never read a property of [undefined] *)


(** ** C7 and C8: what a disconnection does to each room *)

Lemma keys_disconnect sock rooms k :
  In k (JsMap.keys (fst (disconnect sock rooms))) -> In k (JsMap.keys rooms).
Proof.
  induction rooms as [|[c r] rest IH]; simpl; [tauto|].
  destruct (disconnect sock rest) as [rest' later]. simpl in IH.
  destruct (host r =? sock)%string; simpl; [auto|].
  destruct (find_player sock (players r)) as [[pid p]|]; simpl; tauto.
Qed.

Lemma get_absent_key {V : Type} k (m : JsMap.t V) :
  ~ In k (JsMap.keys m) -> JsMap.get k m = None.
Proof.
  destruct (JsMap.get k m) eqn:G; [|reflexivity].
  intros H. exfalso. apply H. eapply get_in_keys. exact G.
Qed.

Lemma wf_disconnect sock rooms :
  JsMap.wf rooms -> JsMap.wf (fst (disconnect sock rooms)).
Proof.
  unfold JsMap.wf. induction rooms as [|[c r] rest IH]; simpl; [auto|].
  intros H. inversion H as [|? ? Hn Hd]; subst. specialize (IH Hd).
  pose proof (keys_disconnect sock rest c) as Hk.
  destruct (disconnect sock rest) as [rest' later]. simpl in *.
  destruct (host r =? sock)%string; simpl; [auto|].
  destruct (find_player sock (players r)) as [[pid p]|]; simpl;
    constructor; auto.
Qed.

Lemma get_disconnect sock rooms c r :
  JsMap.wf rooms ->
  JsMap.get c rooms = Some r ->
  JsMap.get c (fst (disconnect sock rooms))
  = if (host r =? sock)%string then None else Some (without_first_player sock r).
Proof.
  unfold JsMap.wf. induction rooms as [|[c0 r0] rest IH]; simpl; [discriminate|].
  intros Hwf. inversion Hwf as [|? ? Hn Hd]; subst. specialize (IH Hd).
  pose proof (keys_disconnect sock rest c) as Hk.
  destruct (disconnect sock rest) as [rest' later]. simpl in *.
  destruct (c0 =? c)%string eqn:E.
  - apply String.eqb_eq in E. subst c0. intros H. injection H as ->.
    destruct (host r =? sock)%string; simpl.
    + apply get_absent_key. tauto.
    + unfold without_first_player.
      destruct (find_player sock (players r)) as [[pid p]|]; simpl;
        now rewrite String.eqb_refl.
  - intros G. specialize (IH G).
    destruct (host r0 =? sock)%string; simpl; [exact IH|].
    destruct (find_player sock (players r0)) as [[pid p]|]; simpl; now rewrite E.
Qed.

Lemma effects_disconnect sock rooms c r :
  In (c, r) rooms ->
  if (host r =? sock)%string
  then In (EmitTo c room_closed) (snd (disconnect sock rooms))
  else forall playerId player,
         find_player sock (players r) = Some (playerId, player) ->
         In (EmitTo (host r) (player_left playerId)) (snd (disconnect sock rooms)).
Proof.
  induction rooms as [|[c0 r0] rest IH]; simpl; [tauto|].
  destruct (disconnect sock rest) as [rest' later]. simpl in IH.
  intros [H|H].
  - injection H as -> ->. destruct (host r =? sock)%string; simpl; [auto|].
    intros pid p F. rewrite F. simpl. auto.
  - specialize (IH H).
    destruct (host r =? sock)%string.
    + destruct (host r0 =? sock)%string; simpl; [auto|].
      destruct (find_player sock (players r0)) as [[pid p]|]; simpl; auto.
    + intros pid p F. specialize (IH pid p F).
      destruct (host r0 =? sock)%string; simpl; [auto|].
      destruct (find_player sock (players r0)) as [[pid0 p0]|]; simpl; auto.
Qed.


Lemma find_room_key playerId rooms c r :
  find_room playerId rooms = Some (c, r) -> In c (JsMap.keys rooms).
Proof.
  intros H. apply find_room_In in H.
  apply in_map_iff. exists (c, r). auto.
Qed.






Lemma find_player_first sock ps playerId player :
  find_player sock ps = Some (playerId, player) ->
  socketId player = sock /\
  exists before after,
    ps = (before ++ (playerId, player) :: after)%list /\
    forall e, In e before -> socketId (snd e) <> sock.
Proof.
  induction ps as [|[pid p] ps IH]; simpl; [discriminate|].
  destruct (socketId p =? sock)%string eqn:E.
  - intros H. injection H as <- <-. apply String.eqb_eq in E.
    split; [exact E|]. exists [], ps. simpl. tauto.
  - intros H. destruct (IH H) as [Hs (before & after & -> & Hb)].
    split; [exact Hs|]. exists ((pid, p) :: before), after.
    split; [reflexivity|].
    intros e [<-|He]; [now apply String.eqb_neq | auto].
Qed.

Lemma find_player_none sock ps :
  find_player sock ps = None -> forall e, In e ps -> socketId (snd e) <> sock.
Proof.
  induction ps as [|[pid p] ps IH]; simpl; [tauto|].
  destruct (socketId p =? sock)%string eqn:E; [discriminate|].
  intros H e [<-|He]; [now apply String.eqb_neq | auto].
Qed.

Lemma two_rooms_server_reachable : reachable two_rooms_server.
Proof.
  apply (run_reachable two_rooms_inputs initial).
  - constructor.
  - unfold two_rooms_inputs. admissible_inputs.
  - vm_compute. reflexivity.
Qed.

(** Claim C8, as the code has it.  When a socket disconnects, every room it
    does not host stays in the registry, and in each such room holding a
    player bound to the socket the first such player, in the room's insertion
    order, is removed and the room's host is sent [player_left]; the other
    players of the room are untouched, and a room with no such player is left
    as it was. *)
Theorem disconnect_takes_first_player_of_each_room
    (sock : string) (rooms : Rooms) (c : string) (r : Room) :
  JsMap.wf rooms ->
  JsMap.get c rooms = Some r ->
  host r <> sock ->
  exists r',
    JsMap.get c (fst (disconnect sock rooms)) = Some r' /\
    match find_player sock (players r) with
    | Some (playerId, player) =>
        r' = set_players (JsMap.delete playerId (players r)) r /\
        socketId player = sock /\
        (exists before after,
            players r = (before ++ (playerId, player) :: after)%list /\
            forall e, In e before -> socketId (snd e) <> sock) /\
        JsMap.get playerId (players r') = None /\
        (forall other, other <> playerId ->
            JsMap.get other (players r') = JsMap.get other (players r)) /\
        In (EmitTo (host r) (player_left playerId)) (snd (disconnect sock rooms))
    | None =>
        r' = r /\ forall e, In e (players r) -> socketId (snd e) <> sock
    end.
Proof.
  intros Hwf Hget Hhost.
  exists (without_first_player sock r). split.
  { rewrite (get_disconnect sock rooms c r Hwf Hget).
    apply String.eqb_neq in Hhost. now rewrite Hhost. }
  pose proof (effects_disconnect sock rooms c r (get_In _ _ _ Hget)) as Heff.
  apply String.eqb_neq in Hhost. rewrite Hhost in Heff.
  unfold without_first_player.
  destruct (find_player sock (players r)) as [[playerId player]|] eqn:F.
  - destruct (find_player_first _ _ _ _ F) as [Hs Hfirst].
    split; [reflexivity|]. split; [exact Hs|]. split; [exact Hfirst|].
    split; [apply get_delete_same|].
    split; [intros other Hne; now apply get_delete_other|].
    now apply Heff with (player := player).
  - split; [reflexivity | now apply find_player_none].
Qed.

Lemma disconnect_takes_first_player_of_each_room_witness :
  exists r',
    JsMap.get "FAST-1000" (fst (disconnect "s1" (registry two_rooms_server))) = Some r' /\
    JsMap.keys (players r') = ["bob"].
Proof.
  assert (Hwf : JsMap.wf (registry two_rooms_server)).
  { repeat constructor; simpl; intuition discriminate. }
  destruct (disconnect_takes_first_player_of_each_room "s1" (registry two_rooms_server)
              "FAST-1000" second_room Hwf eq_refl ltac:(discriminate))
    as (r' & Hget & Hr').
  exists r'. split; [exact Hget|].
  simpl in Hr'. destruct Hr' as (-> & _). reflexivity.
Defined.

(** The claim as the specification words it fails: the first room of the
    registry holds a player bound to the socket, and a later room loses a
    player all the same. *)
Lemma disconnect_not_first_room_only :
  ~ (forall s sock c1 r1 rest c r,
       reachable s ->
       registry s = (c1, r1) :: rest ->
       (forall c0 r0, In (c0, r0) (registry s) -> host r0 <> sock) ->
       find_player sock (players r1) <> None ->
       In (c, r) rest ->
       JsMap.get c (fst (disconnect sock (registry s))) = Some r).
Proof.
  intros H.
  specialize (H two_rooms_server "s1" _ _ _ "FAST-1000" second_room
                two_rooms_server_reachable eq_refl).
  assert (Hget : JsMap.get "FAST-1000" (fst (disconnect "s1" (registry two_rooms_server)))
                 = Some second_room).
  { apply H.
    - simpl. intros c0 r0 [E|[E|[]]]; injection E as <- <-; discriminate.
    - discriminate.
    - simpl. auto. }
  vm_compute in Hget. discriminate.
Qed.

(** ** C9: scores within a game *)

(** Claim C9, as the code has it.  No input other than a ['start_game']
    lowers the score of a player who is in a room before and after it, but
    for a ['join_room'] into that room under that player's own id, which puts
    a new player with score 0 in its place. *)
Theorem score_never_decreases
    (i : Input) (rooms rooms' : Rooms) (effects : list Effect)
    (c : string) (r r' : Room) (pid : string) (p p' : Player) :
  JsMap.wf rooms ->
  handle i rooms = Done (rooms', effects) ->
  ~ starts_game i ->
  JsMap.get c rooms = Some r ->
  JsMap.get c rooms' = Some r' ->
  JsMap.get pid (players r) = Some p ->
  JsMap.get pid (players r') = Some p' ->
  (~ joins_as c pid i -> score p <= score p') /\
  (joins_as c pid i -> score p' = 0).
Proof.
  intros Hwf Hh Hns Hr Hr' Hp Hp'.
  assert (Hsame : players r' = players r -> score p <= score p').
  { intros E. rewrite E in Hp'. assert (p' = p) by congruence. subst. lia. }
  destruct i as [sock e | roomCode shuffled now]; simpl in Hh.
  - destruct e; simpl in Hh, Hns; cbn [joins_as].
    + (* create_room *)
      split; [intros _ | tauto].
      unfold create_room, createRoom in Hh. injection Hh as <- _.
      destruct (string_dec c (generateRoomCode r1 r2)) as [->|Hne].
      * rewrite get_set_same in Hr'. injection Hr' as <-. discriminate.
      * rewrite get_set_other in Hr' by assumption.
        apply Hsame. congruence.
    + (* join_room *)
      unfold join_room in Hh.
      destruct (JsMap.get (toUpperCase roomCode) rooms) as [room|] eqn:G.
      * injection Hh as <- _.
        destruct (string_dec c (toUpperCase roomCode)) as [->|Hne].
        -- rewrite get_modify_same, G in Hr'. injection Hr' as <-.
           assert (room = r) by congruence. subst room. simpl in Hp'.
           destruct (string_dec pid playerId) as [->|Hpid].
           ++ rewrite get_set_same in Hp'. injection Hp' as <-.
              split; [intros Hj; exfalso; apply Hj; auto | reflexivity].
           ++ rewrite get_set_other in Hp' by assumption.
              split; [intros _ | intros [_ E]; congruence].
              assert (p' = p) by congruence. subst. lia.
        -- rewrite get_modify_other in Hr' by assumption.
           split; [intros _ | intros [E _]; congruence].
           apply Hsame. congruence.
      * injection Hh as <- _.
        split; [intros _; apply Hsame; congruence|].
        intros [<- _]. congruence.
    + tauto.
    + (* buzz_in *)
      split; [intros _ | tauto].
      unfold buzz_in in Hh.
      destruct (find_room playerId rooms) as [[c0 room]|] eqn:F.
      * destruct (truthy _).
        -- injection Hh as <- _. apply Hsame. congruence.
        -- destruct (JsMap.get _ _); simpl in Hh; [|discriminate].
           injection Hh as <- _.
           apply get_store_found in Hr'.
           destruct Hr' as [Hr'|[-> (r0 & F' & G)]].
           ++ apply Hsame. congruence.
           ++ apply Hsame. rewrite F in F'. injection F' as -> ->.
              simpl. congruence.
      * injection Hh as <- _. apply Hsame. congruence.
    + (* submit_answer *)
      split; [intros _ | tauto].
      unfold submit_answer in Hh.
      destruct (find_room playerId rooms) as [[c0 room]|] eqn:F.
      * destruct (currentQuestion room) as [question|].
        -- destruct (JsMap.get playerId (players room)) as [player|] eqn:G;
             simpl in Hh; [|discriminate].
           injection Hh as <- _.
           apply get_store_found in Hr'.
           destruct Hr' as [Hr'|[-> (r0 & F' & G')]].
           ++ apply Hsame. congruence.
           ++ rewrite F in F'. injection F' as -> ->.
              assert (r0 = r) by congruence. subst r0. simpl in Hp'.
              destruct (string_dec pid playerId) as [->|Hpid].
              ** rewrite get_modify_same, G in Hp'. simpl in Hp'.
                 injection Hp' as <-. assert (player = p) by congruence. subst.
                 pose proof (score_points_nonneg (given =? a question)%string
                               (now - toNumber (questionStartTime r))).
                 destruct (given =? a question)%string; cbn [score set_score]; lia.
              ** rewrite get_modify_other in Hp' by assumption.
                 assert (p' = p) by congruence. subst. lia.
        -- injection Hh as <- _. apply Hsame. congruence.
      * injection Hh as <- _. apply Hsame. congruence.
    + (* disconnect *)
      split; [intros _ | tauto].
      injection Hh as Hh.
      assert (Hrooms : rooms' = fst (disconnect sock rooms)) by now rewrite Hh.
      subst rooms'. rewrite (get_disconnect sock rooms c r Hwf Hr) in Hr'.
      destruct (host r =? sock)%string; [discriminate|].
      injection Hr' as <-. unfold without_first_player in Hp'.
      destruct (find_player sock (players r)) as [[pid0 p0]|].
      * simpl in Hp'. destruct (string_dec pid pid0) as [->|Hpid].
        -- rewrite get_delete_same in Hp'. discriminate.
        -- rewrite get_delete_other in Hp' by assumption.
           assert (p' = p) by congruence. subst. lia.
      * assert (p' = p) by congruence. subst. lia.
  - (* nextQuestion *)
    split; [intros _ | cbn [joins_as]; tauto].
    unfold nextQuestion in Hh.
    destruct (JsMap.get roomCode rooms) as [room|] eqn:G.
    + destruct (string_dec c roomCode) as [->|Hne].
      * assert (room = r) by congruence. subst room.
        destruct (5 <? _).
        -- injection Hh as <- _. rewrite get_modify_same, G in Hr'.
           injection Hr' as <-. now apply Hsame.
        -- destruct (send_to_players _ _ _); simpl in Hh; [|discriminate].
           injection Hh as <- _. rewrite get_modify_same, G in Hr'.
           injection Hr' as <-. now apply Hsame.
      * destruct (5 <? _).
        -- injection Hh as <- _. rewrite get_modify_other in Hr' by assumption.
           apply Hsame. congruence.
        -- destruct (send_to_players _ _ _); simpl in Hh; [|discriminate].
           injection Hh as <- _. rewrite get_modify_other in Hr' by assumption.
           apply Hsame. congruence.
    + injection Hh as <- _. apply Hsame. congruence.
Qed.

Lemma scored_server_reachable : reachable scored_server.
Proof.
  apply (run_reachable scored_inputs initial).
  - constructor.
  - unfold scored_inputs, game_inputs. cbn [app]. admissible_inputs.
  - vm_compute. reflexivity.
Qed.

Lemma score_never_decreases_witness :
  exists p p',
    JsMap.get "bob" (players game_room) = Some p /\
    JsMap.get "bob" (players scored_room) = Some p' /\
    score p <= score p'.
Proof.
  eexists. eexists. split; [reflexivity|]. split; [reflexivity|].
  assert (Hwf : JsMap.wf game_rooms) by (repeat constructor; simpl; tauto).
  refine (proj1 (score_never_decreases
                   (FromSocket "s2" (ev_submit_answer "bob" "2007" 6000))
                   game_rooms (registry scored_server) _ "COOL-1000"
                   game_room scored_room "bob" _ _
                   Hwf _ _ eq_refl eq_refl eq_refl eq_refl) _).
  - vm_compute. reflexivity.
  - simpl. tauto.
  - simpl. tauto.
Defined.

(** The claim as the specification words it fails: while the game is being
    played, a ['join_room'] under Bob's id puts his score back from 240 to 0. *)
Lemma rejoin_resets_score :
  ~ (forall s i s' effects c r r' pid p p',
       reachable s ->
       step s i s' effects ->
       ~ starts_game i ->
       JsMap.get c (registry s) = Some r ->
       gameState r = PLAYING ->
       JsMap.get c (registry s') = Some r' ->
       JsMap.get pid (players r) = Some p ->
       JsMap.get pid (players r') = Some p' ->
       score p <= score p').
Proof.
  intros H.
  assert (Hstep : exists s' effects r' p',
             step scored_server (FromSocket "s3" (ev_join_room "COOL-1000" "bob" "Bob" None))
                  s' effects /\
             JsMap.get "COOL-1000" (registry s') = Some r' /\
             JsMap.get "bob" (players r') = Some p' /\
             score p' = 0).
  { eexists. eexists. eexists. eexists. split.
    - constructor; [exact I | vm_compute; reflexivity].
    - split; [vm_compute; reflexivity|]. split; [vm_compute; reflexivity|]. reflexivity. }
  destruct Hstep as (s' & effects & r' & p' & Hstep & Hr' & Hp' & Hzero).
  pose proof (H scored_server _ s' effects "COOL-1000" scored_room r' "bob"
                (mkPlayer "bob" "Bob" "B" "s2" 240) p'
                scored_server_reachable Hstep ltac:(simpl; tauto)
                eq_refl eq_refl Hr' eq_refl Hp') as Hle.
  rewrite Hzero in Hle. simpl in Hle. lia.
Qed.

(** ** The registry of a reachable server is a well-formed map *)

Lemma handle_wf i rooms rooms' effects :
  JsMap.wf rooms -> handle i rooms = Done (rooms', effects) -> JsMap.wf rooms'.
Proof.
  intros Hwf Hh.
  assert (Hkeys : JsMap.keys rooms' = JsMap.keys rooms -> JsMap.wf rooms').
  { unfold JsMap.wf. now intros ->. }
  destruct i as [sock e | roomCode shuffled now]; simpl in Hh.
  - destruct e; simpl in Hh.
    + unfold create_room, createRoom in Hh. injection Hh as <- _. now apply wf_set.
    + unfold join_room in Hh. destruct (JsMap.get _ rooms).
      * injection Hh as <- _. now apply wf_modify.
      * now injection Hh as <- _.
    + unfold start_game in Hh. destruct (JsMap.get _ rooms); [destruct (negb _)|].
      * now injection Hh as <- _.
      * injection Hh as <- _. now apply wf_modify.
      * now injection Hh as <- _.
    + unfold buzz_in in Hh. destruct (find_room _ rooms) as [[c r]|].
      * destruct (truthy _); [now injection Hh as <- _|].
        destruct (JsMap.get _ _); simpl in Hh; [|discriminate].
        injection Hh as <- _. apply Hkeys, keys_store_found.
      * now injection Hh as <- _.
    + unfold submit_answer in Hh. destruct (find_room _ rooms) as [[c r]|].
      * destruct (currentQuestion r); [|now injection Hh as <- _].
        destruct (JsMap.get _ _); simpl in Hh; [|discriminate].
        injection Hh as <- _. apply Hkeys, keys_store_found.
      * now injection Hh as <- _.
    + injection Hh as Hh.
      assert (E : rooms' = fst (disconnect sock rooms)) by now rewrite Hh.
      subst rooms'. now apply wf_disconnect.
  - unfold nextQuestion in Hh. destruct (JsMap.get _ rooms).
    + destruct (5 <? _).
      * injection Hh as <- _. now apply wf_modify.
      * destruct (send_to_players _ _ _); simpl in Hh; [|discriminate].
        injection Hh as <- _. now apply wf_modify.
    + now injection Hh as <- _.
Qed.

Lemma reachable_wf s : reachable s -> JsMap.wf (registry s).
Proof.
  induction 1 as [|s i s' effects Hr IH Hstep].
  - constructor.
  - destruct Hstep as [rooms' effects Ha Hh]. simpl.
    eapply handle_wf; eassumption.
Qed.

(** ** C10: room creation *)

Lemma Qfloor_between (x : Q) (lo hi : Z) :
  (inject_Z lo <= x)%Q -> (x < inject_Z hi)%Q -> lo <= Qfloor x < hi.
Proof.
  intros Hlo Hhi. split.
  - rewrite <- (Qfloor_Z lo). now apply Qfloor_resp_le.
  - rewrite Zlt_Qlt. eapply Qle_lt_trans; [apply Qfloor_le | exact Hhi].
Qed.

Lemma generateRoomCode_range r1 r2 :
  is_random r1 -> is_random r2 ->
  exists adj n,
    In adj adjectives /\ 1000 <= n <= 9999 /\
    generateRoomCode r1 r2 = adj ++ "-" ++ decimal n.
Proof.
  intros [H1 H1'] [H2 H2']. unfold generateRoomCode.
  assert (Hadj : 0 <= Qfloor (r1 * inject_Z (Z.of_nat (List.length adjectives))) < 10).
  { apply Qfloor_between; change (inject_Z (Z.of_nat (List.length adjectives))) with 10%Q;
      [change (inject_Z 0) with 0%Q | change (inject_Z 10) with 10%Q]; lra. }
  assert (Hnum : 1000 <= Qfloor (1000 + r2 * 9000) < 10000).
  { apply Qfloor_between;
      [change (inject_Z 1000) with 1000%Q | change (inject_Z 10000) with 10000%Q]; lra. }
  eexists. exists (Qfloor (1000 + r2 * 9000)). split; [|split; [lia | reflexivity]].
  apply nth_In. change (List.length adjectives) with 10%nat in *. lia.
Qed.

Lemma wf_get_In {V : Type} (m : JsMap.t V) k v :
  JsMap.wf m -> In (k, v) m -> JsMap.get k m = Some v.
Proof.
  unfold JsMap.wf. induction m as [|[k' v'] m IH]; simpl; [tauto|].
  intros Hwf. inversion Hwf as [|? ? Hn Hd]; subst.
  intros [H|H].
  - injection H as -> ->. now rewrite String.eqb_refl.
  - destruct (k' =? k)%string eqn:E; [|auto].
    apply String.eqb_eq in E. subst k'.
    exfalso. apply Hn. apply in_map_iff. exists (k, v). auto.
Qed.

Lemma find_room_nowhere playerId rooms :
  (forall k r, In (k, r) rooms -> JsMap.has playerId (players r) = false) ->
  find_room playerId rooms = None.
Proof.
  induction rooms as [|[c r] rest IH]; simpl; [reflexivity|].
  intros H. rewrite (H c r) by auto. apply IH. intros k r0 Hin. eapply H; eauto.
Qed.

(** Claim C10.  ['create_room'] stores a new empty [LOBBY] room under the
    generated code, one of the 10 adjectives followed by a number from 1000 to
    9999, without looking whether the code is taken.  When a room is already
    stored under that code, the registry keeps its size and its order, the
    entry now holds the new room, the old room is no entry of the registry
    any more, and a player whom only the old room held is found in no room.
    Nothing but the join of the channel and the reply is sent. *)
Theorem create_room_replaces_on_collision
    (sock : string) (r1 r2 : Q) (callback : bool) (rooms : Rooms) :
  is_random r1 -> is_random r2 -> JsMap.wf rooms ->
  let roomCode := generateRoomCode r1 r2 in
  let fresh := newRoom roomCode sock in
  let rooms' := JsMap.set roomCode fresh rooms in
  create_room sock r1 r2 callback rooms
  = Done (rooms', SocketJoin sock roomCode :: (if callback then [Callback roomCode] else []))
  /\ (exists adj n,
        In adj adjectives /\ 1000 <= n <= 9999 /\ roomCode = adj ++ "-" ++ decimal n)
  /\ JsMap.get roomCode rooms' = Some fresh
  /\ (host fresh = sock /\ players fresh = [] /\ gameState fresh = LOBBY /\
      currentQuestion fresh = None /\ questionNumber fresh = 0 /\
      buzzedPlayer fresh = None /\ answers fresh = [])
  /\ (forall k, k <> roomCode -> JsMap.get k rooms' = JsMap.get k rooms)
  /\ JsMap.wf rooms'
  /\ (forall old,
        JsMap.get roomCode rooms = Some old ->
        JsMap.keys rooms' = JsMap.keys rooms /\
        JsMap.size rooms' = JsMap.size rooms /\
        (forall k r, In (k, r) rooms' ->
                     (k = roomCode /\ r = fresh) \/ (k <> roomCode /\ In (k, r) rooms)) /\
        (forall playerId,
            (forall k r, In (k, r) rooms -> k <> roomCode ->
                         JsMap.has playerId (players r) = false) ->
            find_room playerId rooms' = None)).
Proof.
  intros H1 H2 Hwf roomCode fresh rooms'.
  assert (Hwf' : JsMap.wf rooms') by now apply wf_set.
  assert (Hget : JsMap.get roomCode rooms' = Some fresh) by apply get_set_same.
  assert (Hentries : forall k r, In (k, r) rooms' ->
            (k = roomCode /\ r = fresh) \/ (k <> roomCode /\ In (k, r) rooms)).
  { intros k r Hin. destruct (string_dec k roomCode) as [->|Hne].
    - left. split; [reflexivity|].
      apply (wf_get_In _ _ _ Hwf') in Hin. congruence.
    - right. split; [exact Hne|].
      apply in_set in Hin. destruct Hin as [Hin|[-> _]]; [exact Hin | congruence]. }
  split; [reflexivity|].
  split; [now apply generateRoomCode_range|].
  split; [exact Hget|].
  split; [repeat split|].
  split; [intros k Hk; now apply get_set_other|].
  split; [exact Hwf'|].
  intros old Hold.
  assert (Hhas : JsMap.has roomCode rooms = true) by (apply has_get; eauto).
  split; [now apply keys_set_present|].
  split; [now apply size_set_present|].
  split; [exact Hentries|].
  intros playerId Hothers. apply find_room_nowhere.
  intros k r Hin. destruct (Hentries k r Hin) as [[_ ->]|[Hne Hin']].
  - reflexivity.
  - now apply (Hothers k r).
Qed.

Lemma create_room_replaces_on_collision_witness :
  generateRoomCode 0 0 = "COOL-1000" /\
  find_room "bob" game_rooms = Some ("COOL-1000", game_room) /\
  exists rooms',
    create_room "tv2" 0 0 true game_rooms
    = Done (rooms', [SocketJoin "tv2" "COOL-1000"; Callback "COOL-1000"]) /\
    JsMap.size rooms' = JsMap.size game_rooms /\
    find_room "bob" rooms' = None.
Proof.
  assert (Hwf : JsMap.wf game_rooms) by (repeat constructor; simpl; tauto).
  assert (Hr : is_random 0) by (split; vm_compute; congruence).
  destruct (create_room_replaces_on_collision "tv2" 0 0 true game_rooms Hr Hr Hwf)
    as (Hrun & _ & _ & _ & _ & _ & Hold).
  destruct (Hold game_room eq_refl) as (_ & Hsize & _ & Hplayers).
  split; [reflexivity|]. split; [reflexivity|].
  eexists. split; [exact Hrun|]. split; [exact Hsize|].
  apply Hplayers. simpl. intros k r [E|[]] Hne. injection E as <- <-.
  exfalso. apply Hne. reflexivity.
Defined.

(** * Further properties of the handlers *)

(** ** How an input changes the rooms *)

Lemma in_disconnect_without sock rooms c r :
  In (c, r) (fst (disconnect sock rooms)) ->
  exists r0, In (c, r0) rooms /\ host r0 <> sock /\ r = without_first_player sock r0.
Proof.
  induction rooms as [|[c0 r0] rest IH]; simpl; [tauto|].
  destruct (disconnect sock rest) as [rest' later]. simpl in IH.
  destruct (host r0 =? sock)%string eqn:E; simpl.
  - intros H. destruct (IH H) as (r1 & ? & ? & ?). eauto.
  - apply String.eqb_neq in E. unfold without_first_player.
    destruct (find_player sock (players r0)) as [[pid p]|] eqn:F; simpl.
    + intros [H|H].
      * injection H as <- <-. exists r0. rewrite F. auto.
      * destruct (IH H) as (r1 & ? & ? & ?). eauto.
    + intros [H|H].
      * injection H as <- <-. exists r0. rewrite F. auto.
      * destruct (IH H) as (r1 & ? & ? & ?). eauto.
Qed.

(** After any input a room of the registry is a room that was there, the new
    room of a ['create_room'], or a room that was there changed in one of the
    seven ways of [room_update]. *)
Lemma handle_changes i rooms rooms' effects :
  fair_shuffle i ->
  handle i rooms = Done (rooms', effects) ->
  forall c r', In (c, r') rooms' ->
    In (c, r') rooms \/
    (exists sock r1 r2 callback,
        i = FromSocket sock (ev_create_room r1 r2 callback) /\
        c = generateRoomCode r1 r2 /\ r' = newRoom c sock) \/
    (exists r, In (c, r) rooms /\ room_update i c r r').
Proof.
  intros Hfair Hh c r' Hin.
  destruct i as [sock e | roomCode shuffled now]; simpl in Hh.
  - destruct e; simpl in Hh.
    + unfold create_room, createRoom in Hh. injection Hh as <- _.
      apply in_set in Hin. destruct Hin as [Hin|[-> ->]]; [auto|].
      right. left. eauto 8.
    + unfold join_room in Hh.
      destruct (JsMap.get (toUpperCase roomCode) rooms) as [room|] eqn:G.
      * injection Hh as <- _. apply in_modify in Hin.
        destruct Hin as [Hin|[-> [v [_ ->]]]]; [auto|].
        right. right. exists room. split; [now apply get_In|].
        eapply update_join; reflexivity.
      * injection Hh as <- _. auto.
    + unfold start_game in Hh.
      destruct (JsMap.get roomCode rooms) as [room|] eqn:G.
      * destruct (host room =? sock)%string eqn:E; simpl in Hh.
        -- apply String.eqb_eq in E. injection Hh as <- _. apply in_modify in Hin.
           destruct Hin as [Hin|[-> [v [_ ->]]]]; [auto|].
           right. right. exists room. split; [now apply get_In|].
           apply update_start. now rewrite E.
        -- injection Hh as <- _. auto.
      * injection Hh as <- _. auto.
    + unfold buzz_in in Hh.
      destruct (find_room playerId rooms) as [[c0 room]|] eqn:F.
      * destruct (truthy (buzzedPlayer room)) eqn:T.
        -- injection Hh as <- _. auto.
        -- destruct (JsMap.get playerId _); simpl in Hh; [|discriminate].
           injection Hh as <- _. apply in_store_found in Hin.
           destruct Hin as [Hin|[-> [r0 F']]]; [auto|].
           rewrite F in F'. injection F' as -> ->.
           right. right. exists r0. split; [now apply find_room_In in F|].
           eapply update_buzz; [reflexivity | | exact T].
           eapply find_room_has. exact F.
      * injection Hh as <- _. auto.
    + unfold submit_answer in Hh.
      destruct (find_room playerId rooms) as [[c0 room]|] eqn:F.
      * destruct (currentQuestion room) as [question|] eqn:Q.
        -- destruct (JsMap.get playerId (players room)) as [player|] eqn:G;
             simpl in Hh; [|discriminate].
           injection Hh as <- _. apply in_store_found in Hin.
           destruct Hin as [Hin|[-> [r0 F']]]; [auto|].
           rewrite F in F'. injection F' as -> ->.
           right. right. exists r0. split; [now apply find_room_In in F|].
           eapply update_submit; [reflexivity | exact Q | exact G].
        -- injection Hh as <- _. auto.
      * injection Hh as <- _. auto.
    + injection Hh as Hh.
      assert (E : rooms' = fst (disconnect sock rooms)) by now rewrite Hh.
      subst rooms'. apply in_disconnect_without in Hin.
      destruct Hin as (r0 & Hin & Hhost & ->). unfold without_first_player.
      destruct (find_player sock (players r0)) as [[pid p]|] eqn:F; [|auto].
      right. right. exists r0. split; [exact Hin|].
      eapply update_leave; [reflexivity | exact Hhost | exact F].
  - simpl in Hfair. destruct (shuffled_first _ Hfair) as [question [Hq Hcat]].
    unfold nextQuestion in Hh.
    destruct (JsMap.get roomCode rooms) as [room|] eqn:G.
    + cbn [questionNumber set_questionNumber] in Hh.
      destruct (5 <? questionNumber room + 1) eqn:E.
      * apply Z.ltb_lt in E. injection Hh as <- _. apply in_modify in Hin.
        destruct Hin as [Hin|[-> [v [_ ->]]]]; [auto|].
        right. right. exists room. split; [now apply get_In|].
        eapply update_round_end; [reflexivity | exact E].
      * apply Z.ltb_ge in E.
        rewrite Hq, send_to_players_question in Hh. simpl in Hh.
        injection Hh as <- _. apply in_modify in Hin.
        destruct Hin as [Hin|[-> [v [_ ->]]]]; [auto|].
        right. right. exists room. split; [now apply get_In|].
        eapply update_question; [reflexivity | exact E | exact Hcat].
    + injection Hh as <- _. auto.
Qed.

Lemma admissible_fair s i : admissible s i -> fair_shuffle i.
Proof.
  destruct i as [sock e|c shuffled now]; simpl; [tauto|]. now intros [_ H].
Qed.

(** What holds of a new room and is kept by every update holds of every room
    of a reachable server. *)
Lemma reachable_rooms_ind (P : string -> Room -> Prop) :
  (forall r1 r2 sock,
      is_random r1 -> is_random r2 ->
      P (generateRoomCode r1 r2) (newRoom (generateRoomCode r1 r2) sock)) ->
  (forall i c r r', room_update i c r r' -> P c r -> P c r') ->
  forall s, reachable s -> forall c r, In (c, r) (registry s) -> P c r.
Proof.
  intros Hnew Hupd s Hr.
  induction Hr as [|s i s' effects Hr IH Hstep]; [simpl; tauto|].
  destruct Hstep as [rooms' effects Ha Hh]. simpl. intros c r Hin.
  destruct (handle_changes i _ _ _ (admissible_fair _ _ Ha) Hh c r Hin)
    as [Hold|[(sock & r1 & r2 & cb & -> & -> & ->)|(r0 & Hin0 & Hu)]].
  - auto.
  - simpl in Ha. apply Hnew; tauto.
  - eapply Hupd; eauto.
Qed.

(** ** C3: no handler clears [currentQuestion] *)

Lemma last_question_server_reachable : reachable last_question_server.
Proof.
  apply (run_reachable (removelast round_inputs) initial).
  - constructor.
  - cbv [round_inputs game_inputs one_question app removelast]. admissible_inputs.
  - vm_compute. reflexivity.
Qed.

(** Claim C3, as the code has it.  In every reachable state a room whose
    [questionNumber] is positive or whose [gameState] is [ROUND_END] holds a
    non-null [currentQuestion], and a room whose [currentQuestion] is null has
    [questionNumber = 0] and is not in [ROUND_END].  No step of the server
    clears the question: a step leaves the [currentQuestion] of a room as it
    was, but for the timer that sends the room's next question, which puts a
    question of the catalogue in its place, and for a ['create_room'] that
    draws the room's code and stores a new room under it.  So the step that
    takes a room to [ROUND_END] leaves [currentQuestion] as it was, not null:
    the room still holds the last question sent. *)
Theorem currentQuestion_never_cleared :
  (forall s roomCode room,
      reachable s ->
      JsMap.get roomCode (registry s) = Some room ->
      (0 < questionNumber room \/ gameState room = ROUND_END ->
       currentQuestion room <> None) /\
      (currentQuestion room = None ->
       questionNumber room <= 0 /\ gameState room <> ROUND_END)) /\
  (forall s i s' effects roomCode room room',
      reachable s ->
      step s i s' effects ->
      JsMap.get roomCode (registry s) = Some room ->
      JsMap.get roomCode (registry s') = Some room' ->
      currentQuestion room' = currentQuestion room \/
      (exists shuffled now question,
          i = TimerFires roomCode shuffled now /\
          questionNumber room < 5 /\
          In question triviaQuestions /\
          currentQuestion room' = Some question) \/
      (exists sock r1 r2 callback,
          i = FromSocket sock (ev_create_room r1 r2 callback) /\
          generateRoomCode r1 r2 = roomCode /\
          room' = newRoom roomCode sock)) /\
  (forall s i s' effects roomCode room room',
      reachable s ->
      step s i s' effects ->
      JsMap.get roomCode (registry s) = Some room ->
      JsMap.get roomCode (registry s') = Some room' ->
      gameState room <> ROUND_END ->
      gameState room' = ROUND_END ->
      currentQuestion room' = currentQuestion room /\
      exists last, currentQuestion room' = Some last).
Proof.
  assert (Hinv : forall s roomCode room,
             reachable s ->
             JsMap.get roomCode (registry s) = Some room ->
             0 < questionNumber room \/ gameState room = ROUND_END ->
             currentQuestion room <> None).
  { intros s roomCode room Hr Hget.
    exact (reachable_holds_question s Hr _ _ (get_In _ _ _ Hget)). }
  assert (Hstep : forall s i s' effects roomCode room room',
             reachable s ->
             step s i s' effects ->
             JsMap.get roomCode (registry s) = Some room ->
             JsMap.get roomCode (registry s') = Some room' ->
             room' = room \/
             (exists sock r1 r2 callback,
                 i = FromSocket sock (ev_create_room r1 r2 callback) /\
                 generateRoomCode r1 r2 = roomCode /\ room' = newRoom roomCode sock) \/
             room_update i roomCode room room').
  { intros s i s' effects roomCode room room' Hr Hs Hget Hget'.
    destruct Hs as [rooms' effects Ha Hh]. simpl in Hget'.
    pose proof (reachable_wf s Hr) as Hwf.
    destruct (handle_changes i _ _ _ (admissible_fair _ _ Ha) Hh roomCode room'
                (get_In _ _ _ Hget'))
      as [Hold|[(sock & r1 & r2 & cb & -> & -> & ->)|(r0 & Hin0 & Hu)]].
    - left. apply (wf_get_In _ _ _ Hwf) in Hold. congruence.
    - right. left. eauto 8.
    - right. right. apply (wf_get_In _ _ _ Hwf) in Hin0.
      assert (r0 = room) by congruence. now subst r0. }
  split; [|split].
  - intros s roomCode room Hr Hget.
    pose proof (Hinv s roomCode room Hr Hget) as H.
    split; [exact H|].
    intros Hnone. split.
    + destruct (Z_lt_le_dec 0 (questionNumber room)) as [Hlt|Hle]; [|exact Hle].
      exfalso. apply H; auto.
    + intros Hend. apply H; auto.
  - intros s i s' effects roomCode room room' Hr Hs Hget Hget'.
    destruct (Hstep s i s' effects roomCode room room' Hr Hs Hget Hget')
      as [->|[Hnew|Hu]]; [now left | now right; right |].
    destruct Hu as [| | | | | |r shuffled now question Hi Hn Hin];
      try (left; reflexivity).
    right. left. exists shuffled, now, question.
    split; [exact Hi|]. split; [lia|]. split; [exact Hin | reflexivity].
  - intros s i s' effects roomCode room room' Hr Hs Hget Hget' Hbefore Hafter.
    destruct (Hstep s i s' effects roomCode room room' Hr Hs Hget Hget')
      as [->|[(sock & r1 & r2 & cb & _ & _ & ->)|Hu]];
      [congruence | discriminate Hafter |].
    destruct Hu as [| | | | |r shuffled now Hi Hn|]; simpl in Hafter;
      try congruence; try discriminate.
    split; [reflexivity|]. simpl.
    destruct (currentQuestion r) as [last|] eqn:Q; [eauto|].
    exfalso. apply (Hinv s roomCode r Hr Hget); [left; lia | exact Q].
Qed.

Lemma currentQuestion_never_cleared_witness :
  currentQuestion round_end_room = currentQuestion last_question_room /\
  currentQuestion round_end_room <> None.
Proof.
  destruct currentQuestion_never_cleared as (Hinv & _ & Hend).
  split.
  - destruct (exec_step last_question_server
                (TimerFires "COOL-1000" triviaQuestions 30000) round_end_server)
      as [effects Hstep].
    + split; [vm_compute; tauto | apply Permutation_refl].
    + vm_compute. reflexivity.
    + apply (Hend last_question_server _ round_end_server effects "COOL-1000"
               last_question_room round_end_room
               last_question_server_reachable Hstep eq_refl eq_refl).
      * discriminate.
      * reflexivity.
  - apply (Hinv round_end_server "COOL-1000" round_end_room
             round_end_server_reachable eq_refl).
    right. reflexivity.
Defined.

(** ** Room codes *)

Lemma prints_well_range :
  forallb prints_well (map Z.of_nat (seq (Z.to_nat 1000) (Z.to_nat 9000))) = true.
Proof. vm_compute. reflexivity. Qed.

Lemma number_prints_well n : 1000 <= n <= 9999 -> prints_well n = true.
Proof.
  intros Hn. pose proof prints_well_range as Hall.
  rewrite forallb_forall in Hall. apply Hall.
  apply in_map_iff. exists (Z.to_nat n). split; [lia|].
  apply in_seq. lia.
Qed.



Lemma adjective_shape adj :
  In adj adjectives -> toUpperCase adj = adj /\ String.length adj = 4%nat.
Proof.
  simpl. intuition (subst; split; reflexivity).
Qed.

Lemma toUpperCase_app s1 s2 :
  toUpperCase (s1 ++ s2) = toUpperCase s1 ++ toUpperCase s2.
Proof.
  induction s1 as [|ch s1 IH]; simpl; [reflexivity | now rewrite IH].
Qed.

Lemma length_append s1 s2 :
  String.length (s1 ++ s2) = (String.length s1 + String.length s2)%nat.
Proof.
  induction s1 as [|ch s1 IH]; simpl; [reflexivity | now rewrite IH].
Qed.

Lemma room_code_shape c :
  room_code c -> toUpperCase c = c /\ String.length c = 9%nat.
Proof.
  intros (adj & n & Hadj & Hn & ->).
  destruct (adjective_shape adj Hadj) as [Ua La].
  pose proof (number_prints_well n Hn) as Pn. unfold prints_well in Pn.
  apply andb_prop in Pn. destruct Pn as [Pn _].
  apply andb_prop in Pn. destruct Pn as [Un Ln].
  apply String.eqb_eq in Un. apply Nat.eqb_eq in Ln.
  split.
  - rewrite !toUpperCase_app, Ua, Un. reflexivity.
  - rewrite !length_append, La, Ln. reflexivity.
Qed.





(** Every code of the shape is drawn by some pair of random values. *)
Lemma generateRoomCode_onto c :
  room_code c -> exists r1 r2, is_random r1 /\ is_random r2 /\ generateRoomCode r1 r2 = c.
Proof.
  intros (adj & n & Hadj & Hn & ->).
  destruct (In_nth adjectives adj "undefined" Hadj) as (k & Hk & Hnth).
  change (List.length adjectives) with 10%nat in Hk.
  exists (inject_Z (2 * Z.of_nat k + 1) / 20)%Q, (inject_Z (n - 1000) / 9000)%Q.
  assert (Hr1 : is_random (inject_Z (2 * Z.of_nat k + 1) / 20)).
  { split; unfold Qle, Qlt, Qdiv, Qmult, Qinv, inject_Z;
      cbn -[Z.mul Z.add Z.of_nat Pos.mul]; lia. }
  assert (Hr2 : is_random (inject_Z (n - 1000) / 9000)).
  { split; unfold Qle, Qlt, Qdiv, Qmult, Qinv, inject_Z;
      cbn -[Z.mul Z.add Z.sub Pos.mul]; lia. }
  split; [exact Hr1|]. split; [exact Hr2|].
  unfold generateRoomCode.
  change (inject_Z (Z.of_nat (List.length adjectives))) with 10%Q.
  assert (E1 : Qfloor (inject_Z (2 * Z.of_nat k + 1) / 20 * 10) = Z.of_nat k).
  { assert (Z.of_nat k <= Qfloor (inject_Z (2 * Z.of_nat k + 1) / 20 * 10)
            < Z.of_nat k + 1); [|lia].
    apply Qfloor_between;
      unfold Qle, Qlt, Qdiv, Qmult, Qinv, inject_Z;
      cbn -[Z.mul Z.add Z.of_nat Pos.mul]; lia. }
  assert (E2 : Qfloor (1000 + inject_Z (n - 1000) / 9000 * 9000) = n).
  { assert (n <= Qfloor (1000 + inject_Z (n - 1000) / 9000 * 9000) < n + 1); [|lia].
    apply Qfloor_between;
      unfold Qle, Qlt, Qdiv, Qmult, Qplus, Qinv, inject_Z;
      cbn -[Z.mul Z.add Z.sub Pos.mul]; lia. }
  rewrite E1, E2, Nat2Z.id, Hnth. reflexivity.
Qed.

(** The draws of the program, in doubles, at given random values: from 0 the
    first adjective and 1000, from the largest double below 1 the last
    adjective and 9999; from the double 0.7 the eighth adjective, where the
    exact product stays below 7. *)
Lemma double_draws :
  double_floor_times 0%float 10 0 = true /\
  double_floor_number 0%float 1000 = true /\
  double_floor_times 0x1.fffffffffffffp-1%float 10 9 = true /\
  double_floor_number 0x1.fffffffffffffp-1%float 9999 = true /\
  double_floor_times 0x1.6666666666666p-1%float 10 7 = true.
Proof. repeat split; vm_compute; reflexivity. Qed.





(** ** What every room of a reachable server satisfies *)

Arguments score_points : simpl never.

Lemma room_update_identity i c r r' :
  room_update i c r r' -> code r' = code r /\ host r' = host r.
Proof. destruct 1; simpl; auto. Qed.

Lemma keys_forEach {V : Type} (f : V -> V) (m : JsMap.t V) :
  JsMap.keys (JsMap.forEach f m) = JsMap.keys m.
Proof.
  unfold JsMap.keys, JsMap.forEach. rewrite map_map. reflexivity.
Qed.

Lemma in_forEach {V : Type} (f : V -> V) (m : JsMap.t V) k v :
  In (k, v) (JsMap.forEach f m) -> exists v0, In (k, v0) m /\ v = f v0.
Proof.
  unfold JsMap.forEach. intros H. apply in_map_iff in H.
  destruct H as [[k0 v0] [E H]]. simpl in E. injection E as <- <-. eauto.
Qed.

Lemma in_delete {V : Type} k (m : JsMap.t V) k0 v :
  In (k0, v) (JsMap.delete k m) -> In (k0, v) m /\ k0 <> k.
Proof.
  unfold JsMap.delete. intros H. apply filter_In in H. destruct H as [H E].
  split; [exact H|]. simpl in E. apply negb_true_iff, String.eqb_neq in E. exact E.
Qed.

Lemma reachable_key_is_code s :
  reachable s ->
  forall c r, In (c, r) (registry s) -> code r = c /\ room_code c.
Proof.
  apply (reachable_rooms_ind (fun c r => code r = c /\ room_code c)).
  - intros r1 r2 sock H1 H2. split; [reflexivity|].
    now apply generateRoomCode_range.
  - intros i c r r' Hu [Hc Hg]. split; [|exact Hg].
    destruct (room_update_identity _ _ _ _ Hu) as [E _]. congruence.
Qed.

(** X3.  In every reachable state the registry holds no code twice, every
    room is stored under its own [code] field, and that code is one
    [generateRoomCode] can return, so it is in upper case: the lookup of
    ['join_room'] and the exact lookup of ['start_game'] and [nextQuestion]
    agree on it. *)
Theorem reachable_registry_keys (s : Server) :
  reachable s ->
  JsMap.wf (registry s) /\
  forall c r, JsMap.get c (registry s) = Some r ->
    code r = c /\ room_code c /\ toUpperCase c = c /\
    JsMap.get (toUpperCase c) (registry s) = Some r.
Proof.
  intros Hr. split; [now apply reachable_wf|].
  intros c r Hget.
  destruct (reachable_key_is_code s Hr c r (get_In _ _ _ Hget)) as [Hc Hg].
  destruct (room_code_shape c Hg) as [Hu _].
  rewrite Hu. auto.
Qed.

Lemma reachable_registry_keys_witness :
  JsMap.wf (registry two_rooms_server) /\
  JsMap.get (toUpperCase "FAST-1000") (registry two_rooms_server) = Some second_room.
Proof.
  destruct (reachable_registry_keys two_rooms_server two_rooms_server_reachable)
    as [Hwf Hall].
  split; [exact Hwf|].
  exact (proj2 (proj2 (proj2 (Hall "FAST-1000" second_room eq_refl)))).
Defined.

(** X4.  [GET /rooms] lists one record per room, in the registry's order,
    and [GET /health] counts them; in a reachable state the codes listed are
    pairwise different and each is the listed room's own code. *)
Theorem get_rooms_lists_registry (s : Server) (isoNow : string) :
  reachable s ->
  Http.rooms (get_health isoNow (registry s))
    = Z.of_nat (List.length (get_rooms (registry s))) /\
  map Http.code (get_rooms (registry s)) = map (fun e => code (snd e)) (registry s) /\
  NoDup (map Http.code (get_rooms (registry s))) /\
  (forall c r, JsMap.get c (registry s) = Some r ->
     In (Http.mkRoomInfo c (JsMap.size (players r)) (gameState r) (currentGame r))
        (get_rooms (registry s))).
Proof.
  intros Hr.
  assert (Hcodes : map Http.code (get_rooms (registry s)) = JsMap.keys (registry s)).
  { unfold get_rooms, JsMap.keys. rewrite map_map. reflexivity. }
  split.
  { unfold get_health, get_rooms, JsMap.size. simpl. now rewrite length_map. }
  split.
  { rewrite Hcodes. unfold JsMap.keys. apply map_ext_in.
    intros [c r] Hin. simpl.
    symmetry. exact (proj1 (reachable_key_is_code s Hr c r Hin)). }
  split.
  { rewrite Hcodes. now apply reachable_wf. }
  intros c r Hget. unfold get_rooms. apply in_map_iff.
  exists (c, r). split; [reflexivity | now apply get_In].
Qed.

Lemma get_rooms_lists_registry_witness :
  map Http.code (get_rooms (registry two_rooms_server)) = ["COOL-1000"; "FAST-1000"] /\
  Http.rooms (get_health "2024-01-01T00:00:00.000Z" (registry two_rooms_server)) = 2.
Proof.
  destruct (get_rooms_lists_registry two_rooms_server "2024-01-01T00:00:00.000Z"
              two_rooms_server_reachable) as (Hn & Hc & _).
  split; [rewrite Hc; reflexivity | rewrite Hn; reflexivity].
Defined.

Lemma room_update_sound_players i c r r' :
  room_update i c r r' -> sound_players r -> sound_players r'.
Proof.
  intros Hu (Hwp & Hwa & Hp & Ha).
  destruct Hu as [r sock roomCode playerId playerName sentAvatar _ _
                 | r game _
                 | r sock playerId _ _ _
                 | r sock playerId given now question player _ Hq Hg
                 | r sock playerId player _ _ _
                 | r shuffled now _ _
                 | r shuffled now question _ _ _];
    unfold sound_players; simpl.
  - split; [now apply wf_set|]. split; [exact Hwa|]. split; [|exact Ha].
    intros pid p Hin. apply in_set in Hin.
    destruct Hin as [Hin|[-> ->]]; [auto|]. simpl. split; [reflexivity | lia].
  - split; [unfold JsMap.wf; now rewrite keys_forEach|].
    split; [exact Hwa|]. split; [|exact Ha].
    intros pid p Hin. apply in_forEach in Hin. destruct Hin as (p0 & Hin & ->).
    simpl. split; [exact (proj1 (Hp _ _ Hin)) | lia].
  - auto.
  - pose proof (score_points_nonneg (given =? a question)%string
                  (now - toNumber (questionStartTime r))) as Hpts.
    split; [now apply wf_modify|]. split; [now apply wf_set|]. split.
    + intros pid p Hin. apply in_modify in Hin.
      destruct Hin as [Hin|[-> (v & _ & ->)]]; [auto|].
      destruct (Hp _ _ (get_In _ _ _ Hg)) as [Hid Hs].
      destruct (given =? a question)%string; simpl; [split; [exact Hid | lia] | auto].
    + intros pid rec Hin. apply in_set in Hin.
      destruct Hin as [Hin|[-> ->]]; [eauto|]. simpl. split; [exact Hpts|].
      intros ->. reflexivity.
  - split; [now apply wf_delete|]. split; [exact Hwa|]. split; [|exact Ha].
    intros pid p Hin. apply in_delete in Hin. apply Hp. tauto.
  - auto.
  - split; [exact Hwp|]. split; [constructor|]. split; [exact Hp|].
    intros pid rec [].
Qed.

(** X5.  In every reachable state, in every room: no player id and no answer
    is held twice, each player is stored under its own [id], no score is
    negative, and a recorded answer carries points that are not negative and
    are zero when it is wrong. *)
Theorem reachable_players_sound (s : Server) (c : string) (r : Room) :
  reachable s ->
  JsMap.get c (registry s) = Some r ->
  JsMap.wf (players r) /\ JsMap.wf (answers r) /\
  (forall pid p, JsMap.get pid (players r) = Some p -> id p = pid /\ 0 <= score p) /\
  (forall pid rec, JsMap.get pid (answers r) = Some rec ->
     0 <= points rec /\ (correct rec = false -> points rec = 0)).
Proof.
  intros Hr Hget.
  assert (H : sound_players r).
  { apply (reachable_rooms_ind (fun _ => sound_players)) with (s := s) (c := c).
    - intros r1 r2 sock _ _. unfold sound_players. simpl.
      split; [apply NoDup_nil|]. split; [apply NoDup_nil|].
      split; intros ? ? [].
    - intros i c0 r0 r0'. apply room_update_sound_players.
    - exact Hr.
    - now apply get_In. }
  destruct H as (Hwp & Hwa & Hp & Ha).
  split; [exact Hwp|]. split; [exact Hwa|]. split.
  - intros pid p G. apply Hp. now apply get_In.
  - intros pid rec G. apply (Ha pid). now apply get_In.
Qed.

Lemma reachable_players_sound_witness :
  JsMap.wf (players round_end_room) /\ JsMap.wf (answers round_end_room).
Proof.
  destruct (reachable_players_sound round_end_server "COOL-1000" round_end_room
              round_end_server_reachable eq_refl) as (Hp & Ha & _).
  split; assumption.
Defined.

Lemma room_update_sound_round i c r r' :
  room_update i c r r' -> sound_round r -> sound_round r'.
Proof.
  intros Hu (Hn & Hend & Hlobby & Hplay).
  destruct Hu; unfold sound_round, asked, answered; simpl; auto;
    try (repeat split; try lia; try discriminate; auto; fail).
  split; [lia|]. split; [|split; [exact Hlobby | exact Hplay]].
  split; [|lia]. intros E. apply Hend in E. lia.
Qed.

Lemma reachable_sound_round s :
  reachable s -> forall c r, In (c, r) (registry s) -> sound_round r.
Proof.
  apply (reachable_rooms_ind (fun _ => sound_round)).
  - intros r1 r2 sock _ _. unfold sound_round. simpl.
    repeat split; try lia; try discriminate.
  - intros i c r r'. apply room_update_sound_round.
Qed.

(** X6.  In every reachable state [questionNumber] is not negative, a room
    is in [ROUND_END] exactly when [questionNumber] is above 5, a room in
    [LOBBY] has no game selected and a room in [PLAYING] has one.  Hence a
    timer that fires for a room in [ROUND_END] only sends the leaderboard
    again and leaves the room in [ROUND_END]: the state is left by
    ['start_game'] alone. *)
Theorem reachable_round_state (s : Server) (c : string) (r : Room) :
  reachable s ->
  JsMap.get c (registry s) = Some r ->
  0 <= questionNumber r /\
  (gameState r = ROUND_END <-> 5 < questionNumber r) /\
  (gameState r = LOBBY -> currentGame r = None) /\
  (gameState r = PLAYING -> currentGame r <> None) /\
  (gameState r = ROUND_END ->
   forall shuffled now, exists rooms' r' leaderboard,
     nextQuestion c shuffled now (registry s)
       = Done (rooms', [EmitTo c (round_end leaderboard)]) /\
     JsMap.get c rooms' = Some r' /\
     gameState r' = ROUND_END /\
     currentQuestion r' = currentQuestion r /\
     players r' = players r).
Proof.
  intros Hr Hget.
  destruct (reachable_sound_round s Hr c r (get_In _ _ _ Hget))
    as (Hn & Hend & Hlobby & Hplay).
  repeat (split; [assumption|]).
  intros E shuffled now. apply Hend in E.
  unfold nextQuestion. rewrite Hget. cbn [questionNumber set_questionNumber].
  assert (Hlt : (5 <? questionNumber r + 1) = true) by (apply Z.ltb_lt; lia).
  rewrite Hlt. eexists. eexists. eexists.
  split; [reflexivity|].
  split; [rewrite get_modify_same, Hget; reflexivity|].
  repeat split.
Qed.

Lemma reachable_round_state_witness :
  exists rooms' leaderboard,
    nextQuestion "COOL-1000" [] 40000 (registry round_end_server)
    = Done (rooms', [EmitTo "COOL-1000" (round_end leaderboard)]).
Proof.
  destruct (reachable_round_state round_end_server "COOL-1000" round_end_room
              round_end_server_reachable eq_refl) as (_ & _ & _ & _ & Hend).
  destruct (Hend eq_refl [] 40000) as (rooms' & r' & leaderboard & Hrun & _).
  exists rooms', leaderboard. exact Hrun.
Defined.

Lemma room_update_sound_question i c r r' :
  room_update i c r r' -> sound_question r -> sound_question r'.
Proof.
  intros Hu (Hiff & Hcat & Hempty).
  destruct Hu as [| | |r sock playerId given now question player _ Hq _| |
                 | r shuffled now question _ _ Hin];
    unfold sound_question, asked, answered; simpl; auto.
  - split; [exact Hiff|]. split; [exact Hcat|]. rewrite Hq. discriminate.
  - split; [split; discriminate|]. split; [|discriminate].
    intros q0 E. injection E as <-. exact Hin.
Qed.

Lemma reachable_sound_question s :
  reachable s -> forall c r, In (c, r) (registry s) -> sound_question r.
Proof.
  apply (reachable_rooms_ind (fun _ => sound_question)).
  - intros r1 r2 sock _ _. unfold sound_question. simpl.
    repeat split; auto; discriminate.
  - intros i c r r'. apply room_update_sound_question.
Qed.

Lemma catalogue_answerable question :
  In question triviaQuestions ->
  In (a question) (choices question) /\
  List.length (choices question) = 4%nat /\
  NoDup (choices question).
Proof.
  simpl. intros H.
  repeat (destruct H as [<-|H];
          [simpl; split; [tauto|]; split; [reflexivity|];
           repeat constructor; simpl; intuition discriminate|]).
  contradiction.
Qed.

(** X7.  In every reachable state a room has a current question exactly when
    it has a question time stamp, so a scored answer is always timed from a
    real [Date.now()]; the current question is one of the catalogue, with four
    different choices of which one is the stored answer; and a room that has
    no question yet has no recorded answer. *)
Theorem reachable_question_stamped (s : Server) (c : string) (r : Room) :
  reachable s ->
  JsMap.get c (registry s) = Some r ->
  (currentQuestion r = None <-> questionStartTime r = None) /\
  (currentQuestion r = None -> answers r = []) /\
  (forall question,
     currentQuestion r = Some question ->
     (exists sent, questionStartTime r = Some sent) /\
     In question triviaQuestions /\
     In (a question) (choices question) /\
     List.length (choices question) = 4%nat /\
     NoDup (choices question)).
Proof.
  intros Hr Hget.
  destruct (reachable_sound_question s Hr c r (get_In _ _ _ Hget))
    as (Hiff & Hcat & Hempty).
  split; [exact Hiff|]. split; [exact Hempty|].
  intros question Hq. split.
  - destruct (questionStartTime r) as [sent|]; [eauto|].
    pose proof (proj2 Hiff eq_refl). congruence.
  - split; [auto|]. apply catalogue_answerable. auto.
Qed.

Lemma reachable_question_stamped_witness :
  exists sent, questionStartTime game_room = Some sent.
Proof.
  assert (Hreach : reachable game_server).
  { apply (run_reachable game_inputs initial).
    - constructor.
    - unfold game_inputs. admissible_inputs.
    - vm_compute. reflexivity. }
  destruct (reachable_question_stamped game_server "COOL-1000" game_room
              Hreach eq_refl) as (_ & _ & Hq).
  exact (proj1 (Hq first_question eq_refl)).
Defined.

(** ** Joining a room and starting a game *)

Lemma values_set_absent {V : Type} k (v : V) (m : JsMap.t V) :
  JsMap.has k m = false -> JsMap.values (JsMap.set k v m) = (JsMap.values m ++ [v])%list.
Proof.
  unfold JsMap.has. induction m as [|[k' v'] m IH]; simpl; [reflexivity|].
  destruct (k' =? k)%string; simpl; [discriminate|].
  intros H. now rewrite IH.
Qed.

Lemma get_in_values {V : Type} k (v : V) (m : JsMap.t V) :
  JsMap.get k m = Some v -> In v (JsMap.values m).
Proof.
  intros H. apply get_In in H. unfold JsMap.values.
  apply in_map_iff. exists (k, v). auto.
Qed.

Lemma get_forEach {V : Type} (f : V -> V) k (m : JsMap.t V) :
  JsMap.get k (JsMap.forEach f m) = option_map f (JsMap.get k m).
Proof.
  induction m as [|[k' v'] m IH]; simpl; [reflexivity|].
  destruct (k' =? k)%string; [reflexivity | exact IH].
Qed.

Lemma upper_ascii_ascii ch :
  (nat_of_ascii ch <? 128)%nat = true -> (nat_of_ascii (upper_ascii ch) <? 128)%nat = true.
Proof.
  destruct ch as [[] [] [] [] [] [] [] []]; vm_compute; auto.
Qed.

Lemma toUpperCase_ascii s : ascii_text s = true -> ascii_text (toUpperCase s) = true.
Proof.
  induction s as [|ch s IH]; simpl; [reflexivity|].
  intros H. apply andb_prop in H. destruct H as [Hc Hs].
  now rewrite (upper_ascii_ascii ch Hc), IH.
Qed.

Lemma toUpperCase_length s : String.length (toUpperCase s) = String.length s.
Proof.
  induction s as [|ch s IH]; simpl; [reflexivity | now rewrite IH].
Qed.

(** X8.  For a code sent in ASCII text: ['join_room'] for a code under
    which, in upper case, no room is stored changes nothing and only tells
    the sender [Room not found].  Otherwise the sender joins the channel, the
    player is stored under its id with score 0 and the sender as its socket,
    the roster sent to the channel and to the sender is the room's player
    list after the join and holds the new player; a new id goes last and
    makes the room one player larger, a known id keeps its place and the
    size; the other players, the other fields of the room and the other rooms
    are untouched. *)
Theorem join_room_outcome
    (sock roomCode playerId playerName : string) (sentAvatar : option string)
    (rooms : Rooms) :
  ascii_text roomCode = true ->
  let key := toUpperCase roomCode in
  let player := mkPlayer playerId playerName (avatar_or_default sentAvatar) sock 0 in
  ascii_text key = true /\
  String.length key = String.length roomCode /\
  match JsMap.get key rooms with
  | None =>
      join_room sock roomCode playerId playerName sentAvatar rooms
      = Done (rooms, [SocketEmit sock (error "Room not found")])
  | Some room =>
      exists rooms' room',
        join_room sock roomCode playerId playerName sentAvatar rooms
        = Done (rooms',
                [ SocketJoin sock roomCode;
                  EmitTo (host room) (player_joined player);
                  EmitTo roomCode (player_list (JsMap.values (players room')));
                  SocketEmit sock (joined_room roomCode (JsMap.values (players room'))) ]) /\
        JsMap.get key rooms' = Some room' /\
        JsMap.keys rooms' = JsMap.keys rooms /\
        (forall k, k <> key -> JsMap.get k rooms' = JsMap.get k rooms) /\
        room' = set_players (players room') room /\
        JsMap.get playerId (players room') = Some player /\
        In player (JsMap.values (players room')) /\
        (forall other, other <> playerId ->
           JsMap.get other (players room') = JsMap.get other (players room)) /\
        (JsMap.has playerId (players room) = false ->
           JsMap.values (players room') = (JsMap.values (players room) ++ [player])%list /\
           JsMap.size (players room') = JsMap.size (players room) + 1) /\
        (JsMap.has playerId (players room) = true ->
           JsMap.keys (players room') = JsMap.keys (players room) /\
           JsMap.size (players room') = JsMap.size (players room))
  end.
Proof.
  intros Hascii key player.
  split; [now apply toUpperCase_ascii|]. split; [apply toUpperCase_length|].
  unfold join_room. fold key. fold player.
  destruct (JsMap.get key rooms) as [room|] eqn:G; [|reflexivity].
  eexists. eexists. split; [reflexivity|].
  split; [rewrite get_modify_same, G; reflexivity|].
  split; [apply keys_modify|].
  split; [intros k Hk; now apply get_modify_other|].
  split; [reflexivity|].
  assert (Hget : JsMap.get playerId (JsMap.set playerId player (players room)) = Some player)
    by apply get_set_same.
  split; [exact Hget|].
  split; [simpl; eapply get_in_values; exact Hget|].
  split; [intros other Hne; simpl; now apply get_set_other|].
  split; intros Hhas; simpl.
  - split; [now apply values_set_absent | now apply size_set_absent].
  - split; [now apply keys_set_present | now apply size_set_present].
Qed.

(** X9.  ['start_game'] from a socket that is not the host of the room
    stored under exactly the code sent, or for a code under which no room is
    stored, changes nothing and only tells the sender [Not authorized].  From
    the host it sets the game, [PLAYING] and [questionNumber = 0], puts every
    score back to 0 and keeps the players and their order, leaves the
    question, the answers, the buzzer and the time stamp of an earlier round
    in place, tells the channel and sets the one 2000 ms timer; other rooms
    are untouched. *)
Theorem start_game_outcome (sock roomCode game : string) (rooms : Rooms) :
  match JsMap.get roomCode rooms with
  | None =>
      start_game sock roomCode game rooms
      = Done (rooms, [SocketEmit sock (error "Not authorized")])
  | Some room =>
      (host room <> sock ->
       start_game sock roomCode game rooms
       = Done (rooms, [SocketEmit sock (error "Not authorized")])) /\
      (host room = sock ->
       exists rooms' room',
         start_game sock roomCode game rooms
         = Done (rooms', [ EmitTo roomCode (game_started game);
                           SetTimeout roomCode 2000 ]) /\
         JsMap.get roomCode rooms' = Some room' /\
         JsMap.keys rooms' = JsMap.keys rooms /\
         (forall k, k <> roomCode -> JsMap.get k rooms' = JsMap.get k rooms) /\
         gameState room' = PLAYING /\
         currentGame room' = Some game /\
         questionNumber room' = 0 /\
         JsMap.keys (players room') = JsMap.keys (players room) /\
         (forall pid, JsMap.get pid (players room')
                      = option_map (set_score 0) (JsMap.get pid (players room))) /\
         (forall pid p', JsMap.get pid (players room') = Some p' -> score p' = 0) /\
         (host room', code room', currentQuestion room', buzzedPlayer room',
          answers room', questionStartTime room')
         = (host room, code room, currentQuestion room, buzzedPlayer room,
            answers room, questionStartTime room))
  end.
Proof.
  unfold start_game.
  destruct (JsMap.get roomCode rooms) as [room|] eqn:G; [|reflexivity].
  split.
  - intros Hne. apply String.eqb_neq in Hne. now rewrite Hne.
  - intros He. apply String.eqb_eq in He. rewrite He. simpl negb. cbv iota.
    eexists. eexists. split; [reflexivity|].
    split; [rewrite get_modify_same, G; reflexivity|].
    split; [apply keys_modify|].
    split; [intros k Hk; now apply get_modify_other|].
    repeat (split; [reflexivity|]).
    split; [simpl; apply keys_forEach|].
    split; [intros pid; simpl; apply get_forEach|].
    split; [|reflexivity].
    intros pid p'. simpl. rewrite get_forEach.
    destruct (JsMap.get pid (players room)); simpl; [|discriminate].
    intros H. injection H as <-. reflexivity.
Qed.

Lemma start_game_outcome_witness :
  start_game "s1" "COOL-1000" "trivia" lobby_rooms
  = Done (lobby_rooms, [SocketEmit "s1" (error "Not authorized")]).
Proof.
  pose proof (start_game_outcome "s1" "COOL-1000" "trivia" lobby_rooms) as H.
  simpl in H. destruct H as [H _]. apply H. discriminate.
Defined.

Lemma join_room_outcome_witness :
  join_room "s9" "zoom-0001" "eve" "Eve" None lobby_rooms
  = Done (lobby_rooms, [SocketEmit "s9" (error "Room not found")]).
Proof.
  exact (proj2 (proj2 (join_room_outcome "s9" "zoom-0001" "eve" "Eve" None lobby_rooms
                         eq_refl))).
Defined.

(** ** The life of a room *)

(** X10.  The state found under a code changes in three ways only: to
    [PLAYING], by a ['start_game'] that the room's host sends with the room's
    exact code; to [ROUND_END], by a timer of the room that fires when
    [questionNumber] is 5 or more; and to [LOBBY], when a ['create_room'] draws
    the code and stores a new room over the old one.  No player event changes
    the state, and no room goes back to [LOBBY]. *)
Theorem gameState_transitions
    (i : Input) (rooms rooms' : Rooms) (effects : list Effect)
    (c : string) (r r' : Room) :
  JsMap.wf rooms ->
  fair_shuffle i ->
  handle i rooms = Done (rooms', effects) ->
  JsMap.get c rooms = Some r ->
  JsMap.get c rooms' = Some r' ->
  gameState r' <> gameState r ->
  (gameState r' = PLAYING /\
   exists game, i = FromSocket (host r) (ev_start_game c game)) \/
  (gameState r' = ROUND_END /\ 5 <= questionNumber r /\
   exists shuffled now, i = TimerFires c shuffled now) \/
  (exists sock r1 r2 callback,
      i = FromSocket sock (ev_create_room r1 r2 callback) /\
      generateRoomCode r1 r2 = c /\ r' = newRoom c sock).
Proof.
  intros Hwf Hfair Hh Hr Hr' Hchange.
  destruct (handle_changes i rooms rooms' effects Hfair Hh c r' (get_In _ _ _ Hr'))
    as [Hold|[(sock & r1 & r2 & cb & -> & -> & ->)|(r0 & Hin0 & Hu)]].
  - apply (wf_get_In _ _ _ Hwf) in Hold. congruence.
  - right. right. eauto 8.
  - apply (wf_get_In _ _ _ Hwf) in Hin0. assert (r0 = r) by congruence. subst r0.
    destruct Hu; simpl in Hchange; try congruence.
    + left. split; [reflexivity|]. eauto.
    + right. left. split; [reflexivity|]. split; [lia|]. eauto.
Qed.

Lemma gameState_transitions_witness :
  exists game, FromSocket "tv" (ev_start_game "COOL-1000" "trivia")
               = FromSocket "tv" (ev_start_game "COOL-1000" game).
Proof.
  assert (Hwf : JsMap.wf lobby_rooms) by (repeat constructor; simpl; tauto).
  destruct (gameState_transitions
              (FromSocket "tv" (ev_start_game "COOL-1000" "trivia"))
              lobby_rooms
              (JsMap.modify "COOL-1000"
                 (fun r => set_players (JsMap.forEach (set_score 0) (players r))
                             (set_questionNumber 0
                                (set_gameState PLAYING
                                   (set_currentGame (Some "trivia") r))))
                 lobby_rooms)
              _ "COOL-1000" _ _ Hwf I eq_refl eq_refl eq_refl
              ltac:(discriminate))
    as [[_ H]|[[H _]|(sock & r1 & r2 & cb & H & _)]].
  - exact H.
  - discriminate H.
  - discriminate H.
Defined.

Lemma handle_keeps_keys i rooms rooms' effects k :
  handle i rooms = Done (rooms', effects) ->
  (forall sock, i <> FromSocket sock ev_disconnect) ->
  In k (JsMap.keys rooms) -> In k (JsMap.keys rooms').
Proof.
  intros Hh Hnot Hin.
  assert (Hkeys : JsMap.keys rooms' = JsMap.keys rooms -> In k (JsMap.keys rooms'))
    by (intros ->; exact Hin).
  destruct i as [sock e | roomCode shuffled now]; simpl in Hh.
  - destruct e; simpl in Hh.
    + unfold create_room, createRoom in Hh. injection Hh as <- _.
      destruct (JsMap.has (generateRoomCode r1 r2) rooms) eqn:E.
      * now rewrite keys_set_present.
      * rewrite keys_set_absent by assumption. apply in_or_app. now left.
    + unfold join_room in Hh. destruct (JsMap.get (toUpperCase roomCode) rooms).
      * injection Hh as <- _. apply Hkeys, keys_modify.
      * now injection Hh as <- _.
    + unfold start_game in Hh. destruct (JsMap.get roomCode rooms); [destruct (negb _)|].
      * now injection Hh as <- _.
      * injection Hh as <- _. apply Hkeys, keys_modify.
      * now injection Hh as <- _.
    + unfold buzz_in in Hh. destruct (find_room playerId rooms) as [[c0 r]|].
      * destruct (truthy _); [now injection Hh as <- _|].
        destruct (JsMap.get playerId _); simpl in Hh; [|discriminate].
        injection Hh as <- _. apply Hkeys, keys_store_found.
      * now injection Hh as <- _.
    + unfold submit_answer in Hh. destruct (find_room playerId rooms) as [[c0 r]|].
      * destruct (currentQuestion r); [|now injection Hh as <- _].
        destruct (JsMap.get playerId _); simpl in Hh; [|discriminate].
        injection Hh as <- _. apply Hkeys, keys_store_found.
      * now injection Hh as <- _.
    + exfalso. now apply (Hnot sock).
  - unfold nextQuestion in Hh. destruct (JsMap.get roomCode rooms).
    + destruct (5 <? _).
      * injection Hh as <- _. apply Hkeys, keys_modify.
      * destruct (send_to_players _ _ _); simpl in Hh; [|discriminate].
        injection Hh as <- _. apply Hkeys, keys_modify.
    + now injection Hh as <- _.
Qed.

(** X11.  A room leaves the registry only when its own host disconnects.
    After any other input a room is still stored under its code, with the
    same host and the same [code] field, unless a ['create_room'] drew that
    code and stored a new room in its place. *)
Theorem room_closed_by_host_only
    (i : Input) (rooms rooms' : Rooms) (effects : list Effect)
    (c : string) (r : Room) :
  JsMap.wf rooms ->
  fair_shuffle i ->
  handle i rooms = Done (rooms', effects) ->
  JsMap.get c rooms = Some r ->
  (JsMap.get c rooms' = None -> i = FromSocket (host r) ev_disconnect) /\
  (forall r', JsMap.get c rooms' = Some r' ->
     (host r' = host r /\ code r' = code r) \/
     (exists sock r1 r2 callback,
         i = FromSocket sock (ev_create_room r1 r2 callback) /\
         generateRoomCode r1 r2 = c /\ r' = newRoom c sock)).
Proof.
  intros Hwf Hfair Hh Hr. split.
  - intros Hnone.
    destruct i as [sock e | roomCode shuffled now].
    + destruct e;
        try (exfalso; apply (get_none_keys _ _ Hnone);
             eapply handle_keeps_keys;
             [exact Hh | intros s0; discriminate | eapply get_in_keys; exact Hr]).
      simpl in Hh. injection Hh as Hh.
      assert (E : rooms' = fst (disconnect sock rooms)) by now rewrite Hh.
      subst rooms'. rewrite (get_disconnect sock rooms c r Hwf Hr) in Hnone.
      destruct (host r =? sock)%string eqn:E; [|discriminate].
      apply String.eqb_eq in E. now subst.
    + exfalso. apply (get_none_keys _ _ Hnone).
      eapply handle_keeps_keys;
        [exact Hh | intros s0; discriminate | eapply get_in_keys; exact Hr].
  - intros r' Hr'.
    destruct (handle_changes i rooms rooms' effects Hfair Hh c r' (get_In _ _ _ Hr'))
      as [Hold|[Hnew|(r0 & Hin0 & Hu)]].
    + apply (wf_get_In _ _ _ Hwf) in Hold. left. split; congruence.
    + right. destruct Hnew as (sock & r1 & r2 & cb & -> & -> & ->). eauto 8.
    + apply (wf_get_In _ _ _ Hwf) in Hin0. assert (r0 = r) by congruence. subst r0.
      left. destruct (room_update_identity _ _ _ _ Hu). auto.
Qed.

Lemma room_closed_by_host_only_witness :
  FromSocket "tv" ev_disconnect = FromSocket (host game_room) ev_disconnect.
Proof.
  assert (Hwf : JsMap.wf game_rooms) by (repeat constructor; simpl; tauto).
  apply (proj1 (room_closed_by_host_only (FromSocket "tv" ev_disconnect)
                  game_rooms [] [EmitTo "COOL-1000" room_closed]
                  "COOL-1000" game_room Hwf I eq_refl eq_refl)).
  reflexivity.
Defined.

(** ** Buzzing and answering *)

Lemma get_store_found_other playerId room' rooms c room k :
  JsMap.wf rooms ->
  find_room playerId rooms = Some (c, room) ->
  k <> c ->
  JsMap.get k (store_found playerId room' rooms) = JsMap.get k rooms.
Proof.
  unfold JsMap.wf. intros Hwf Hfind Hne.
  induction rooms as [|[c0 r0] rest IH]; simpl in *; [reflexivity|].
  destruct (JsMap.has playerId (players r0)); simpl.
  - injection Hfind as -> ->.
    destruct (c =? k)%string eqn:E; [|reflexivity].
    apply String.eqb_eq in E. congruence.
  - inversion Hwf; subst. destruct (c0 =? k)%string; auto.
Qed.

Lemma get_store_found_same playerId room' rooms c room :
  JsMap.wf rooms ->
  find_room playerId rooms = Some (c, room) ->
  JsMap.get c rooms = Some room /\
  JsMap.get c (store_found playerId room' rooms) = Some room'.
Proof.
  unfold JsMap.wf. intros Hwf Hfind.
  induction rooms as [|[c0 r0] rest IH]; simpl in *; [discriminate|].
  inversion Hwf as [|? ? Hn Hd]; subst.
  destruct (JsMap.has playerId (players r0)); simpl.
  - injection Hfind as -> ->. now rewrite String.eqb_refl.
  - destruct (c0 =? c)%string eqn:E; [|auto].
    apply String.eqb_eq in E. subst c0. exfalso. apply Hn.
    eapply find_room_key. exact Hfind.
Qed.

Lemma find_room_first playerId rooms c room :
  find_room playerId rooms = Some (c, room) ->
  exists before after,
    rooms = (before ++ (c, room) :: after)%list /\
    forall e, In e before -> JsMap.has playerId (players (snd e)) = false.
Proof.
  induction rooms as [|[c0 r0] rest IH]; simpl; [discriminate|].
  destruct (JsMap.has playerId (players r0)) eqn:E.
  - intros H. injection H as <- <-. exists [], rest. simpl. tauto.
  - intros H. destruct (IH H) as (before & after & -> & Hb).
    exists ((c0, r0) :: before), after. split; [reflexivity|].
    intros e [<-|He]; auto.
Qed.

(** X12.  ['buzz_in'] looks the player up in registry order and acts on the
    first room that holds the id, whatever rooms come after it.  When that
    room's [buzzedPlayer] is not truthy the buzz is taken, in any state of the
    room and from any socket: [buzzedPlayer] becomes the player, the channel
    of the code and the host get [player_buzzed] with the player's name, and
    nothing else changes in this room or any other. *)
Theorem buzz_in_outcome
    (sock playerId : string) (rooms : Rooms) (c : string) (room : Room) :
  JsMap.wf rooms ->
  find_room playerId rooms = Some (c, room) ->
  truthy (buzzedPlayer room) = false ->
  (exists before after,
      rooms = (before ++ (c, room) :: after)%list /\
      forall e, In e before -> JsMap.has playerId (players (snd e)) = false) /\
  exists player rooms',
    JsMap.get playerId (players room) = Some player /\
    buzz_in sock playerId rooms
    = Done (rooms', [ EmitTo c (player_buzzed playerId (name player));
                      EmitTo (host room) (player_buzzed playerId (name player)) ]) /\
    JsMap.get c rooms' = Some (set_buzzedPlayer (Some playerId) room) /\
    JsMap.keys rooms' = JsMap.keys rooms /\
    (forall k, k <> c -> JsMap.get k rooms' = JsMap.get k rooms) /\
    (forall other, buzz_in other playerId rooms = buzz_in sock playerId rooms).
Proof.
  intros Hwf Hfind Hfree.
  split; [now apply find_room_first|].
  pose proof (find_room_has _ _ _ _ Hfind) as Hhas.
  apply has_get in Hhas. destruct Hhas as [player Hplayer].
  exists player. eexists. split; [exact Hplayer|].
  unfold buzz_in. rewrite Hfind, Hfree. simpl. rewrite Hplayer. simpl.
  split; [reflexivity|].
  split; [exact (proj2 (get_store_found_same _ _ _ _ _ Hwf Hfind))|].
  split; [apply keys_store_found|].
  split; [|reflexivity].
  intros k Hk. eapply get_store_found_other; eassumption.
Qed.

Lemma buzz_in_outcome_witness :
  exists rooms',
    buzz_in "s2" "bob" game_rooms
    = Done (rooms', [ EmitTo "COOL-1000" (player_buzzed "bob" "Bob");
                      EmitTo "tv" (player_buzzed "bob" "Bob") ]).
Proof.
  assert (Hwf : JsMap.wf game_rooms) by (repeat constructor; simpl; tauto).
  destruct (buzz_in_outcome "s2" "bob" game_rooms "COOL-1000" game_room
              Hwf eq_refl eq_refl)
    as (_ & player & rooms' & Hp & Hrun & _).
  exists rooms'. injection Hp as <-. exact Hrun.
Defined.

Lemma submit_answer_run sock playerId given now rooms c room question player :
  find_room playerId rooms = Some (c, room) ->
  currentQuestion room = Some question ->
  JsMap.get playerId (players room) = Some player ->
  exists effects,
    submit_answer sock playerId given now rooms
    = Done (store_found playerId (answered playerId given now question player room) rooms,
            effects).
Proof.
  intros Hfind Hq Hp. unfold submit_answer. rewrite Hfind, Hq, Hp. simpl bind.
  eexists. reflexivity.
Qed.

(** X13.  Nothing stops a player from answering the same question again:
    each ['submit_answer'] is scored on its own, so after two of them the
    score has grown by the points of both, while [answers] still holds one
    record for the player, that of the second answer, and is no larger than
    after the first. *)
Theorem submit_answer_twice
    (sock playerId given1 given2 : string) (now1 now2 : Z) (rooms : Rooms)
    (c : string) (room : Room) (question : Question) (player : Player) :
  find_room playerId rooms = Some (c, room) ->
  currentQuestion room = Some question ->
  JsMap.get playerId (players room) = Some player ->
  let sent := toNumber (questionStartTime room) in
  let pts1 := score_points (given1 =? a question)%string (now1 - sent) in
  let pts2 := score_points (given2 =? a question)%string (now2 - sent) in
  exists rooms1 effects1 rooms2 effects2 room1 room2 player2,
    submit_answer sock playerId given1 now1 rooms = Done (rooms1, effects1) /\
    submit_answer sock playerId given2 now2 rooms1 = Done (rooms2, effects2) /\
    find_room playerId rooms1 = Some (c, room1) /\
    find_room playerId rooms2 = Some (c, room2) /\
    JsMap.get playerId (players room2) = Some player2 /\
    score player2 = score player + pts1 + pts2 /\
    JsMap.get playerId (answers room2)
      = Some (mkAnswer given2 (given2 =? a question)%string pts2) /\
    JsMap.keys (answers room2) = JsMap.keys (answers room1).
Proof.
  intros Hfind Hq Hp sent pts1 pts2.
  destruct (submit_answer_run sock playerId given1 now1 rooms c room question player
              Hfind Hq Hp) as [effects1 Hrun1].
  set (room1 := answered playerId given1 now1 question player room) in *.
  set (player1 := if (given1 =? a question)%string
                  then set_score (score player + pts1) player else player).
  assert (Hp1 : JsMap.get playerId (players room1) = Some player1).
  { change (JsMap.get playerId
              (JsMap.modify playerId (fun _ => player1) (players room)) = Some player1).
    rewrite get_modify_same, Hp. reflexivity. }
  assert (Hfind1 : find_room playerId (store_found playerId room1 rooms) = Some (c, room1)).
  { eapply find_room_store_found; [exact Hfind|]. apply has_get. eauto. }
  assert (Hq1 : currentQuestion room1 = Some question) by exact Hq.
  destruct (submit_answer_run sock playerId given2 now2 _ c room1 question player1
              Hfind1 Hq1 Hp1) as [effects2 Hrun2].
  set (room2 := answered playerId given2 now2 question player1 room1) in *.
  set (player2 := if (given2 =? a question)%string
                  then set_score (score player1 + pts2) player1 else player1).
  assert (Hp2 : JsMap.get playerId (players room2) = Some player2).
  { change (JsMap.get playerId
              (JsMap.modify playerId (fun _ => player2) (players room1)) = Some player2).
    rewrite get_modify_same, Hp1. reflexivity. }
  exists (store_found playerId room1 rooms), effects1,
         (store_found playerId room2 (store_found playerId room1 rooms)), effects2,
         room1, room2, player2.
  split; [exact Hrun1|]. split; [exact Hrun2|]. split; [exact Hfind1|].
  split.
  { eapply find_room_store_found; [exact Hfind1|]. apply has_get. eauto. }
  split; [exact Hp2|].
  split.
  { unfold player2, player1, pts1, pts2, score_points.
    destruct (given1 =? a question)%string, (given2 =? a question)%string;
      simpl; lia. }
  split.
  { change (JsMap.get playerId
              (JsMap.set playerId (mkAnswer given2 (given2 =? a question)%string pts2)
                 (answers room1)) = Some (mkAnswer given2 (given2 =? a question)%string pts2)).
    apply get_set_same. }
  change (JsMap.keys
            (JsMap.set playerId (mkAnswer given2 (given2 =? a question)%string pts2)
               (answers room1)) = JsMap.keys (answers room1)).
  apply keys_set_present. apply has_get.
  change (exists v, JsMap.get playerId
            (JsMap.set playerId (mkAnswer given1 (given1 =? a question)%string pts1)
               (answers room)) = Some v).
  rewrite get_set_same. eauto.
Qed.

Lemma submit_answer_twice_witness :
  exists rooms2 room2 player2,
    find_room "bob" rooms2 = Some ("COOL-1000", room2) /\
    JsMap.get "bob" (players room2) = Some player2 /\
    score player2 = 240 + 230.
Proof.
  destruct (submit_answer_twice "s2" "bob" "2007" "2007" 6000 7000 game_rooms
              "COOL-1000" game_room first_question
              (mkPlayer "bob" "Bob" "B" "s2" 0) eq_refl eq_refl eq_refl)
    as (rooms1 & effects1 & rooms2 & effects2 & room1 & room2 & player2
        & _ & _ & _ & Hfind & Hp & Hs & _).
  exists rooms2, room2, player2. repeat split; assumption.
Defined.

(** X14.  A right answer earns 100 points and one more for every full tenth
    of a second left of the 15 seconds: never less than 100, at most 250 when
    the clock has not gone back, never more for a later answer than for an
    earlier one, and exactly 100 once 14.9 seconds have passed.  A wrong
    answer earns 0 whatever the time. *)
Theorem score_points_bounds (timeElapsed later : Z) :
  0 <= timeElapsed <= later ->
  100 <= score_points true later <= score_points true timeElapsed /\
  score_points true timeElapsed <= 250 /\
  (score_points true timeElapsed = 250 <-> timeElapsed = 0) /\
  (score_points true timeElapsed = 100 <-> 14900 < timeElapsed) /\
  (timeElapsed <= 15000 ->
   score_points true timeElapsed = 250 - (timeElapsed + 99) / 100) /\
  score_points false timeElapsed = 0.
Proof.
  intros Hle. rewrite !score_points_correct.
  assert (Hl : 0 <= Z.max 0 (15000 - later) <= Z.max 0 (15000 - timeElapsed)) by lia.
  pose proof (Z.div_le_mono _ _ 100 ltac:(lia) (proj2 Hl)) as Hmono.
  pose proof (Z.div_pos _ 100 (proj1 Hl) ltac:(lia)) as Hpos.
  pose proof (Z.div_mod (Z.max 0 (15000 - timeElapsed)) 100 ltac:(lia)) as Hdm.
  pose proof (Z.mod_pos_bound (Z.max 0 (15000 - timeElapsed)) 100 ltac:(lia)) as Hm.
  pose proof (Z.div_mod (timeElapsed + 99) 100 ltac:(lia)) as Hdm'.
  pose proof (Z.mod_pos_bound (timeElapsed + 99) 100 ltac:(lia)) as Hm'.
  repeat split; try reflexivity; lia.
Qed.

Lemma score_points_bounds_witness :
  100 <= score_points true 9000 <= score_points true 1000 /\
  score_points true 1000 <= 250.
Proof.
  destruct (score_points_bounds 1000 9000 ltac:(lia)) as (H1 & H2 & _).
  split; assumption.
Defined.

(** ** Disconnection *)

Lemma find_player_absent sock ps :
  (forall pid p, In (pid, p) ps -> socketId p <> sock) -> find_player sock ps = None.
Proof.
  induction ps as [|[pid p] ps IH]; simpl; [reflexivity|].
  intros H. destruct (socketId p =? sock)%string eqn:E.
  - apply String.eqb_eq in E. exfalso. eapply H; eauto.
  - apply IH. intros pid0 p0 Hin. eapply H; eauto.
Qed.

Lemma disconnect_counts sock rooms :
  (List.length (fst (disconnect sock rooms)) + List.length (hosted_by sock rooms)
   = List.length rooms)%nat /\
  JsMap.keys (fst (disconnect sock rooms))
  = JsMap.keys (filter (fun e => negb (host (snd e) =? sock)%string) rooms) /\
  List.length (snd (disconnect sock rooms))
  = (List.length (hosted_by sock rooms)
     + List.length (filter (fun e => match find_player sock (players (snd e)) with
                                     | Some _ => negb (host (snd e) =? sock)%string
                                     | None => false
                                     end) rooms))%nat.
Proof.
  induction rooms as [|[c r] rest IH]; simpl; [auto|].
  destruct (disconnect sock rest) as [rest' later]. simpl in IH.
  destruct IH as (Hlen & Hkeys & Heff).
  destruct (host r =? sock)%string; simpl.
  - destruct (find_player sock (players r)); simpl; repeat split; auto; lia.
  - destruct (find_player sock (players r)) as [[pid p]|]; simpl;
      repeat split; auto; try lia; now rewrite Hkeys.
Qed.

(** X15.  A ['disconnect'] closes exactly the rooms the socket hosts: the
    registry shrinks by their number and keeps the other rooms in their
    order; one message is sent per closed room and one per room that loses a
    player.  The disconnection of a socket that hosts no room and is bound to
    no player changes nothing and sends nothing. *)
Theorem disconnect_accounting (sock : string) (rooms : Rooms) :
  JsMap.size (fst (disconnect sock rooms))
    = JsMap.size rooms - JsMap.size (hosted_by sock rooms) /\
  JsMap.keys (fst (disconnect sock rooms))
    = JsMap.keys (filter (fun e => negb (host (snd e) =? sock)%string) rooms) /\
  List.length (snd (disconnect sock rooms))
    = (List.length (hosted_by sock rooms)
       + List.length (filter (fun e => match find_player sock (players (snd e)) with
                                       | Some _ => negb (host (snd e) =? sock)%string
                                       | None => false
                                       end) rooms))%nat /\
  ((forall c r, In (c, r) rooms ->
      host r <> sock /\ forall pid p, In (pid, p) (players r) -> socketId p <> sock) ->
   disconnect sock rooms = (rooms, [])).
Proof.
  destruct (disconnect_counts sock rooms) as (Hlen & Hkeys & Heff).
  split; [unfold JsMap.size; lia|]. split; [exact Hkeys|]. split; [exact Heff|].
  clear. induction rooms as [|[c r] rest IH]; simpl; [reflexivity|].
  intros H. rewrite IH by (intros c0 r0 Hin; apply (H c0 r0); auto).
  destruct (H c r (or_introl eq_refl)) as [Hhost Hplayers].
  apply String.eqb_neq in Hhost. rewrite Hhost.
  now rewrite (find_player_absent sock (players r) Hplayers).
Qed.

Lemma disconnect_accounting_witness :
  disconnect "s7" game_rooms = (game_rooms, []).
Proof.
  apply (proj2 (proj2 (proj2 (disconnect_accounting "s7" game_rooms)))).
  simpl. intros c r [E|[]]. injection E as <- <-. split; [discriminate|].
  simpl. intros pid p [E|[E|[]]]; injection E as <- <-; discriminate.
Defined.

Lemma find_player_set_new sock ps playerId player :
  find_player sock ps = None ->
  JsMap.has playerId ps = false ->
  socketId player = sock ->
  find_player sock (JsMap.set playerId player ps) = Some (playerId, player).
Proof.
  unfold JsMap.has. intros Hnone Hhas Hs.
  induction ps as [|[pid p] ps IH]; simpl in *.
  - apply String.eqb_eq in Hs. now rewrite Hs.
  - destruct (pid =? playerId)%string; [discriminate|]. simpl.
    destruct (socketId p =? sock)%string; [discriminate|]. auto.
Qed.

Lemma delete_set_new {V : Type} k (v : V) (m : JsMap.t V) :
  JsMap.has k m = false -> JsMap.delete k (JsMap.set k v m) = m.
Proof.
  unfold JsMap.has, JsMap.delete. induction m as [|[k' v'] m IH]; simpl.
  - intros _. now rewrite String.eqb_refl.
  - destruct (k' =? k)%string eqn:E; [discriminate|].
    intros H. simpl. rewrite E. simpl. now rewrite IH.
Qed.

(** X16.  Joining and leaving undo each other: when a socket that is not the
    host joins a room under an id the room does not hold, and no player of
    the room is bound to that socket, the disconnection of the socket gives
    the room back exactly as it was before the join, and tells the host that
    this player left. *)
Theorem join_then_disconnect
    (sock roomCode playerId playerName : string) (sentAvatar : option string)
    (rooms : Rooms) (room : Room) :
  JsMap.wf rooms ->
  JsMap.get (toUpperCase roomCode) rooms = Some room ->
  host room <> sock ->
  JsMap.has playerId (players room) = false ->
  find_player sock (players room) = None ->
  exists rooms1 effects1,
    join_room sock roomCode playerId playerName sentAvatar rooms = Done (rooms1, effects1) /\
    JsMap.get (toUpperCase roomCode) (fst (disconnect sock rooms1)) = Some room /\
    In (EmitTo (host room) (player_left playerId)) (snd (disconnect sock rooms1)).
Proof.
  intros Hwf Hget Hhost Hnew Hfree.
  unfold join_room. rewrite Hget.
  set (player := mkPlayer playerId playerName (avatar_or_default sentAvatar) sock 0).
  set (room1 := set_players (JsMap.set playerId player (players room)) room).
  set (rooms1 := JsMap.modify (toUpperCase roomCode) (fun _ => room1) rooms).
  eexists. eexists. split; [reflexivity|].
  assert (Hwf1 : JsMap.wf rooms1) by now apply wf_modify.
  assert (Hget1 : JsMap.get (toUpperCase roomCode) rooms1 = Some room1).
  { unfold rooms1. now rewrite get_modify_same, Hget. }
  assert (Hfound : find_player sock (players room1) = Some (playerId, player)).
  { simpl. now apply find_player_set_new. }
  split.
  - rewrite (get_disconnect sock rooms1 _ room1 Hwf1 Hget1).
    change (host room1) with (host room).
    apply String.eqb_neq in Hhost. rewrite Hhost.
    unfold without_first_player. rewrite Hfound. f_equal.
    unfold room1. simpl. rewrite delete_set_new by assumption.
    destruct room. reflexivity.
  - pose proof (effects_disconnect sock rooms1 _ room1 (get_In _ _ _ Hget1)) as Heff.
    change (host room1) with (host room) in Heff.
    apply String.eqb_neq in Hhost. rewrite Hhost in Heff.
    exact (Heff playerId player Hfound).
Qed.

Lemma join_then_disconnect_witness :
  exists rooms1 effects1,
    join_room "s3" "cool-1000" "cy" "Cy" None game_rooms = Done (rooms1, effects1) /\
    JsMap.get "COOL-1000" (fst (disconnect "s3" rooms1)) = Some game_room.
Proof.
  assert (Hwf : JsMap.wf game_rooms) by (repeat constructor; simpl; tauto).
  destruct (join_then_disconnect "s3" "cool-1000" "cy" "Cy" None game_rooms game_room
              Hwf eq_refl ltac:(discriminate) eq_refl eq_refl)
    as (rooms1 & effects1 & Hjoin & Hback & _).
  exists rooms1, effects1. split; assumption.
Defined.

(** ** Creating a room and coming back to it *)

(** X17.  The code ['create_room'] replies with opens the room it made: a
    ['join_room'] with that code, in any casing of its letters, finds the new
    room and makes the sender its only player; a ['start_game'] with the code
    starts the game when the creator sends it and is refused to every other
    socket. *)
Theorem create_then_use
    (creator : string) (r1 r2 : Q) (callback : bool) (rooms : Rooms) :
  is_random r1 -> is_random r2 ->
  exists rooms1 roomCode,
    create_room creator r1 r2 callback rooms
    = Done (rooms1, SocketJoin creator roomCode
                    :: (if callback then [Callback roomCode] else [])) /\
    (forall sock sent playerId playerName sentAvatar,
        toUpperCase sent = toUpperCase roomCode ->
        exists rooms2 effects room2,
          join_room sock sent playerId playerName sentAvatar rooms1
          = Done (rooms2, effects) /\
          JsMap.get roomCode rooms2 = Some room2 /\
          players room2
          = [(playerId,
              mkPlayer playerId playerName (avatar_or_default sentAvatar) sock 0)] /\
          host room2 = creator /\
          gameState room2 = LOBBY) /\
    (forall game, exists rooms2 room2,
        start_game creator roomCode game rooms1
        = Done (rooms2, [EmitTo roomCode (game_started game); SetTimeout roomCode 2000]) /\
        JsMap.get roomCode rooms2 = Some room2 /\
        gameState room2 = PLAYING) /\
    (forall sock game,
        sock <> creator ->
        start_game sock roomCode game rooms1
        = Done (rooms1, [SocketEmit sock (error "Not authorized")])).
Proof.
  intros H1 H2.
  pose proof (generateRoomCode_range r1 r2 H1 H2) as Hcode.
  destruct (room_code_shape _ Hcode) as [Hupper _].
  set (roomCode := generateRoomCode r1 r2) in *.
  exists (JsMap.set roomCode (newRoom roomCode creator) rooms), roomCode.
  assert (Hget : JsMap.get roomCode (JsMap.set roomCode (newRoom roomCode creator) rooms)
                 = Some (newRoom roomCode creator)) by apply get_set_same.
  split; [reflexivity|]. split; [|split].
  - intros sock sent playerId playerName sentAvatar Hsent.
    rewrite Hupper in Hsent. unfold join_room. rewrite Hsent, Hget.
    eexists. eexists. eexists. split; [reflexivity|].
    split; [rewrite get_modify_same, Hget; reflexivity|].
    repeat split.
  - intros game. unfold start_game. rewrite Hget. simpl host.
    rewrite String.eqb_refl. simpl negb. cbv iota.
    eexists. eexists. split; [reflexivity|].
    split; [rewrite get_modify_same, Hget; reflexivity | reflexivity].
  - intros sock game Hne. unfold start_game. rewrite Hget. simpl host.
    apply not_eq_sym in Hne. apply String.eqb_neq in Hne. now rewrite Hne.
Qed.

Lemma create_then_use_witness :
  exists rooms1 rooms2 effects room2,
    create_room "tv" 0 0 true [] = Done (rooms1, [SocketJoin "tv" "COOL-1000";
                                                   Callback "COOL-1000"]) /\
    join_room "s1" "Cool-1000" "ann" "Ann" None rooms1 = Done (rooms2, effects) /\
    JsMap.get "COOL-1000" rooms2 = Some room2 /\
    JsMap.keys (players room2) = ["ann"].
Proof.
  assert (Hr : is_random 0) by (split; vm_compute; congruence).
  destruct (create_then_use "tv" 0 0 true [] Hr Hr)
    as (rooms1 & roomCode & Hcreate & Hjoin & _).
  assert (E : roomCode = "COOL-1000").
  { unfold create_room, createRoom in Hcreate. injection Hcreate as _ Hc.
    symmetry. exact Hc. }
  subst roomCode.
  destruct (Hjoin "s1" "Cool-1000" "ann" "Ann" None eq_refl)
    as (rooms2 & effects & room2 & Hrun & Hget & Hplayers & _).
  exists rooms1, rooms2, effects, room2.
  split; [exact Hcreate|]. split; [exact Hrun|]. split; [exact Hget|].
  rewrite Hplayers. reflexivity.
Defined.

(** X21.  ['join_room'] subscribes the sender to the channel named by the
    code as it was sent, not by the key of the room it found, while what the
    room broadcasts later goes to the channel named by the key: [game_started]
    of ['start_game'] and [room_closed] of the host's disconnection.  A player
    who sent the code in another casing is in the room but not in that
    channel. *)
Theorem join_room_channel
    (sock roomCode playerId playerName : string) (sentAvatar : option string)
    (rooms : Rooms) (room : Room) :
  JsMap.get (toUpperCase roomCode) rooms = Some room ->
  exists rooms' effects,
    join_room sock roomCode playerId playerName sentAvatar rooms = Done (rooms', effects) /\
    (forall channel, In (SocketJoin sock channel) effects <-> channel = roomCode) /\
    (exists room', JsMap.get (toUpperCase roomCode) rooms' = Some room' /\
                   JsMap.has playerId (players room') = true) /\
    (forall game, exists rooms2,
        start_game (host room) (toUpperCase roomCode) game rooms'
        = Done (rooms2, [ EmitTo (toUpperCase roomCode) (game_started game);
                          SetTimeout (toUpperCase roomCode) 2000 ])) /\
    In (EmitTo (toUpperCase roomCode) room_closed) (snd (disconnect (host room) rooms')).
Proof.
  intros Hget. unfold join_room. rewrite Hget.
  set (player := mkPlayer playerId playerName (avatar_or_default sentAvatar) sock 0).
  set (room1 := set_players (JsMap.set playerId player (players room)) room).
  set (rooms1 := JsMap.modify (toUpperCase roomCode) (fun _ => room1) rooms).
  assert (Hget1 : JsMap.get (toUpperCase roomCode) rooms1 = Some room1).
  { unfold rooms1. now rewrite get_modify_same, Hget. }
  eexists. eexists. split; [reflexivity|]. split; [|split; [|split]].
  - intros channel. simpl. split.
    + intros [H|[H|[H|[H|[]]]]]; try discriminate. now injection H.
    + intros ->. auto.
  - exists room1. split; [exact Hget1|]. apply has_get. simpl.
    rewrite get_set_same. eauto.
  - intros game. unfold start_game. rewrite Hget1.
    change (host room1) with (host room). rewrite String.eqb_refl. simpl negb. cbv iota.
    eexists. reflexivity.
  - pose proof (effects_disconnect (host room) rooms1 _ room1 (get_In _ _ _ Hget1)) as H.
    change (host room1) with (host room) in H. now rewrite String.eqb_refl in H.
Qed.

Lemma join_room_channel_witness :
  exists rooms' effects,
    join_room "s3" "cool-1000" "cy" "Cy" None game_rooms = Done (rooms', effects) /\
    In (SocketJoin "s3" "cool-1000") effects /\
    In (EmitTo "COOL-1000" room_closed) (snd (disconnect "tv" rooms')).
Proof.
  destruct (join_room_channel "s3" "cool-1000" "cy" "Cy" None game_rooms game_room eq_refl)
    as (rooms' & effects & Hrun & Hch & _ & _ & Hclosed).
  exists rooms', effects. split; [exact Hrun|]. split; [|exact Hclosed].
  apply Hch. reflexivity.
Defined.

(** ** Drawing and sending questions *)

Lemma triviaQuestions_NoDup : NoDup triviaQuestions.
Proof. repeat constructor; simpl; intuition discriminate. Qed.

(** X18.  [getRandomQuestions(count)] returns the first [count] questions of
    the shuffled catalogue: as many as asked for, but no more than the ten
    there are, each from the catalogue and none twice; asked for ten or more,
    it returns the whole catalogue in the shuffled order, and asked for none,
    nothing. *)
Theorem getRandomQuestions_draws (shuffled : list Question) (count : nat) :
  Permutation shuffled triviaQuestions ->
  List.length (getRandomQuestions shuffled count) = Nat.min count 10 /\
  NoDup (getRandomQuestions shuffled count) /\
  (forall question, In question (getRandomQuestions shuffled count) ->
                    In question triviaQuestions) /\
  (exists rest, shuffled = (getRandomQuestions shuffled count ++ rest)%list) /\
  (10 <= count -> getRandomQuestions shuffled count = shuffled)%nat /\
  (count = 0%nat -> getRandomQuestions shuffled count = []).
Proof.
  intros Hperm. unfold getRandomQuestions.
  pose proof (Permutation_length Hperm) as Hlen. simpl in Hlen.
  assert (Hnd : NoDup shuffled).
  { apply Permutation_NoDup with (l := triviaQuestions);
      [now apply Permutation_sym | exact triviaQuestions_NoDup]. }
  split; [now rewrite length_firstn, Hlen|].
  split.
  { rewrite <- (firstn_skipn count shuffled) in Hnd.
    now apply NoDup_app_remove_r in Hnd. }
  split.
  { intros question Hin. eapply Permutation_in; [exact Hperm|].
    rewrite <- (firstn_skipn count shuffled). apply in_or_app. now left. }
  split; [exists (skipn count shuffled); symmetry; apply firstn_skipn|].
  split.
  - intros Hc. apply firstn_all2. lia.
  - intros ->. reflexivity.
Qed.

Lemma getRandomQuestions_draws_witness :
  List.length (getRandomQuestions (rev triviaQuestions) 5) = 5%nat /\
  NoDup (getRandomQuestions (rev triviaQuestions) 5).
Proof.
  destruct (getRandomQuestions_draws (rev triviaQuestions) 5
              (Permutation_sym (Permutation_rev triviaQuestions)))
    as (Hlen & Hnd & _).
  split; assumption.
Defined.

(** X19.  When [nextQuestion] sends a question, the host gets it whole, with
    the answer, and every player of the room gets one message at the
    player's own socket, in the order of the players, that carries the number,
    the prompt and the choices; with no player in the room the host's message
    is the only one. *)
Theorem nextQuestion_messages
    (roomCode : string) (question : Question) (others : list Question) (now : Z)
    (rooms : Rooms) (room : Room) :
  JsMap.get roomCode rooms = Some room ->
  questionNumber room < 5 ->
  exists rooms' effects,
    nextQuestion roomCode (question :: others) now rooms = Done (rooms', effects) /\
    effects
    = EmitTo (host room) (new_question (questionNumber room + 1) (Some question))
      :: map (fun p => EmitTo (socketId p)
                         (new_question_redacted (questionNumber room + 1)
                            (q question) (choices question)))
             (JsMap.values (players room)) /\
    List.length effects = S (List.length (players room)) /\
    (players room = [] ->
     effects = [EmitTo (host room)
                  (new_question (questionNumber room + 1) (Some question))]).
Proof.
  intros Hget Hlt. unfold nextQuestion. rewrite Hget.
  cbn [questionNumber set_questionNumber].
  assert (E : (5 <? questionNumber room + 1) = false) by (apply Z.ltb_ge; lia).
  rewrite E. simpl getRandomQuestions. simpl nth_error.
  rewrite send_to_players_question. simpl bind.
  eexists. eexists. split; [reflexivity|].
  split; [reflexivity|]. split.
  - simpl. unfold JsMap.values. now rewrite !length_map.
  - simpl. intros ->. reflexivity.
Qed.

Lemma nextQuestion_messages_witness :
  exists rooms' effects,
    nextQuestion "COOL-1000" triviaQuestions 9000 game_rooms = Done (rooms', effects) /\
    List.length effects = 3%nat.
Proof.
  destruct (nextQuestion_messages "COOL-1000" first_question (tl triviaQuestions) 9000
              game_rooms game_room eq_refl ltac:(simpl; lia))
    as (rooms' & effects & Hrun & _ & Hlen & _).
  exists rooms', effects. split; [exact Hrun | exact Hlen].
Defined.

(** ** Progress *)



(** ** After the round *)

(** X22.  The end of the round does not close the question: in a reachable
    room that is in [ROUND_END] the last question is still current, so a
    ['submit_answer'] of one of its players is scored like any other, against
    that question and its time stamp, and the room stays in [ROUND_END]. *)
Theorem answer_scored_after_round_end
    (s : Server) (sock playerId given : string) (now : Z) (c : string) (r : Room) :
  reachable s ->
  find_room playerId (registry s) = Some (c, r) ->
  gameState r = ROUND_END ->
  exists question player rooms' effects r' player',
    currentQuestion r = Some question /\
    JsMap.get playerId (players r) = Some player /\
    submit_answer sock playerId given now (registry s) = Done (rooms', effects) /\
    find_room playerId rooms' = Some (c, r') /\
    gameState r' = ROUND_END /\
    JsMap.get playerId (players r') = Some player' /\
    score player'
    = score player
      + score_points (given =? a question)%string (now - toNumber (questionStartTime r)) /\
    (given = a question -> score player + 100 <= score player').
Proof.
  intros Hr Hfind Hend.
  pose proof (reachable_holds_question s Hr c r (find_room_In _ _ _ _ Hfind)) as Hq.
  destruct (currentQuestion r) as [question|] eqn:Q;
    [|exfalso; apply Hq; [now right | exact Q]].
  pose proof (find_room_has _ _ _ _ Hfind) as Hhas.
  apply has_get in Hhas. destruct Hhas as [player Hp].
  destruct (submit_answer_run sock playerId given now (registry s) c r question player
              Hfind Q Hp) as [effects Hrun].
  set (r' := answered playerId given now question player r) in *.
  set (pts := score_points (given =? a question)%string
                (now - toNumber (questionStartTime r))).
  set (player' := if (given =? a question)%string
                  then set_score (score player + pts) player else player).
  assert (Hp' : JsMap.get playerId (players r') = Some player').
  { change (JsMap.get playerId
              (JsMap.modify playerId (fun _ => player') (players r)) = Some player').
    rewrite get_modify_same, Hp. reflexivity. }
  exists question, player, (store_found playerId r' (registry s)), effects, r', player'.
  split; [reflexivity|]. split; [exact Hp|]. split; [exact Hrun|].
  split; [eapply find_room_store_found; [exact Hfind | apply has_get; eauto]|].
  split; [exact Hend|]. split; [exact Hp'|].
  assert (Hscore : score player' = score player + pts).
  { unfold player', pts, score_points.
    destruct (given =? a question)%string; simpl; lia. }
  split; [exact Hscore|].
  intros E. rewrite Hscore. unfold pts.
  apply String.eqb_eq in E. rewrite E, score_points_correct.
  assert (0 <= Z.max 0 (15000 - (now - toNumber (questionStartTime r))) / 100)
    by (apply Z.div_pos; lia).
  lia.
Qed.

Lemma answer_scored_after_round_end_witness :
  exists rooms' r' player',
    find_room "ann" rooms' = Some ("COOL-1000", r') /\
    JsMap.get "ann" (players r') = Some player' /\
    score player' = 1150 + 100.
Proof.
  destruct (answer_scored_after_round_end round_end_server "s1" "ann" "2007" 90000
              "COOL-1000" round_end_room round_end_server_reachable eq_refl eq_refl)
    as (question & player & rooms' & effects & r' & player'
        & Hq & Hp & _ & Hfind & _ & Hp' & Hs & _).
  exists rooms', r', player'. split; [exact Hfind|]. split; [exact Hp'|].
  injection Hq as <-. injection Hp as <-. rewrite Hs. reflexivity.
Defined.
